(** * rom-search: the ROM search engine of rom-organizer

    A shallow embedding of [src/rom-search.py] (class [RomSearchEngine]) and
    the properties of its cache, its lexical pre-filter and its ranking.

    Conventions of the embedding.
    - A Python [str] is the list of its code points ([list N]).
    - A Python [float] that is finite is the rational it denotes ([Q]); the
      engine only copies, compares and adds [10.0] to such values.
    - The functions of the Python runtime the engine calls ([str.lower],
      [str.isspace], [unicodedata], [rapidfuzz], [difflib], [hashlib]) are
      interfaces (type classes); the theorems hold for every implementation.
    - The file system, the clock and the engine's attributes are explicit
      state; an exception that leaves a method is a [Raise] result. *)

From Stdlib Require Import QArith Qround Lqa Ascii String.
From stdpp Require Import gmap list sorting.

Open Scope Z_scope.

(** ** Python strings *)

Abbreviation str := (list N).

(** The [str] of an ASCII literal of the source. *)
Definition py (s : string) : str := N_of_ascii <$> list_ascii_of_string s.

(** What the engine uses of [str] and [unicodedata]. *)
Class Unicode := {
  (** [s.lower()] *)
  lower : str → str;
  (** [c.isspace()], the characters [strip()] and [split()] remove *)
  isspace : N → bool;
  (** [unicodedata.normalize('NFD', s)] *)
  nfd : str → str;
  (** [unicodedata.combining(c)], the canonical combining class *)
  combining : N → nat
}.

(** What the engine uses of [rapidfuzz] and [difflib]. *)
Class Fuzz := {
  RAPIDFUZZ_AVAILABLE : bool;
  (** [fuzz.partial_ratio(a, b)] *)
  partial_ratio : str → str → Q;
  (** [difflib.SequenceMatcher(None, a, b).ratio()] *)
  sequence_ratio : str → str → Q
}.

(** What the engine uses of [hashlib], and [str()] of a number. *)
Class Digest := {
  (** [hashlib.md5(data).hexdigest()] *)
  md5_hexdigest : str → str;
  str_of_float : Q → str;
  str_of_int : Z → str
}.

Section Strings.
Context {U : Unicode}.

Fixpoint lstrip (s : str) : str :=
  match s with
  | c :: s' => if isspace c then lstrip s' else s
  | [] => []
  end.

Definition rstrip (s : str) : str := reverse (lstrip (reverse s)).

(** [s.strip()] *)
Definition strip (s : str) : str := rstrip (lstrip s).

(** [s.split()]: the maximal runs of characters that are not whitespace. *)
Fixpoint split_ws (s : str) : list str :=
  match s with
  | [] => []
  | c :: s' =>
      if isspace c then split_ws s'
      else match s' with
           | [] => [[c]]
           | c' :: _ =>
               if isspace c' then [c] :: split_ws s'
               else match split_ws s' with
                    | w :: ws => (c :: w) :: ws
                    | [] => [[c]]
                    end
           end
  end.

(** [s.split(sep)] for a separator of one character: empty segments are
    kept, and the result is never empty. *)
Fixpoint split_on (sep : N) (s : str) : list str :=
  match s with
  | [] => [[]]
  | c :: s' =>
      if (c =? sep)%N then [] :: split_on sep s'
      else match split_on sep s' with
           | w :: ws => (c :: w) :: ws
           | [] => [[c]]
           end
  end.

Fixpoint startswith (s w : str) {struct w} : bool :=
  match w, s with
  | [], _ => true
  | _ :: _, [] => false
  | a :: w', b :: s' => (a =? b)%N && startswith s' w'
  end.

(** [w in s] on strings. *)
Fixpoint contains (w s : str) : bool :=
  startswith s w ||
  match s with
  | [] => false
  | _ :: s' => contains w s'
  end.

(** [int(x)] of a float: truncation towards zero. *)
Definition py_int (x : Q) : Z := Qnum x ÷ Zpos (Qden x).
End Strings.

(** ** The engine's constants and records *)

Definition DEFAULT_FUZZY_THRESHOLD : Q := 40.
Definition CACHE_VERSION : str := Eval vm_compute in py "1.0".
Definition DEFAULT_MAX_RESULTS : Z := 50.
Definition DIRECTORY_SAMPLE_SIZE : nat := 100.

Record RomMatch := {
  filename : str;
  full_path : str;
  source_type : str;
  score : Q;
  size : Z;
  modified_time : Q
}.

Definition ROM_EXTENSIONS : list str := Eval vm_compute in
  py <$> ["zip"; "7z"; "rar"; "sfc"; "smd"; "gen"; "nes"; "gb"; "gbc"; "gba";
          "n64"; "z64"; "v64"; "iso"; "cue"; "bin"; "img"; "rom"; "sms"; "gg";
          "pce"; "ws"; "wsc"; "ngp"; "ngc"; "lynx"; "jag"; "32x"; "sat"; "cdi";
          "chd"; "nds"; "gba"; "fds"; "nsf"; "spc"; "psf"; "minipsf"; "psf2";
          "ssf"; "dsf"; "gsf"; "usf"; "rsn"; "sap"; "sid"; "gym"; "vgm"; "vgz"]%string.

Definition DOT : N := Eval vm_compute in N_of_ascii ".".

Section Text.
Context {U : Unicode}.

(** [_is_rom_file]: [filename.lower().split('.')[-1] in ROM_EXTENSIONS]. *)
Definition _is_rom_file (filename : str) : bool :=
  let ext := default [] (last (split_on DOT (lower filename))) in
  bool_decide (ext ∈ ROM_EXTENSIONS).

(** [_normalize_text] *)
Definition _normalize_text (text : str) : str :=
  match text with
  | [] => []
  | _ =>
      let normalized := nfd text in
      let no_diacritics := List.filter (λ c, Nat.eqb (combining c) 0) normalized in
      lower no_diacritics
  end.

(** [[w for w in ... if len(w) >= 2]] *)
Definition long_words (ws : list str) : list str :=
  List.filter (λ w, (2 <=? length w)%nat) ws.

(** [sum(1 for word in words if word in text)] *)
Definition count_hits (words : list str) (text : str) : nat :=
  length (List.filter (λ word, contains word text) words).

(** [max(1, int(len(words) * 0.6))].  The literal [0.6] is read as the
    rational 6/10: the double nearest to it is smaller by less than
    2.3e-17, and for every length below 2^50 the product, rounded to a
    double, has the same integer part. *)
Definition required_hits (words : list str) : Z :=
  1 `max` py_int (inject_Z (Z.of_nat (length words)) * (6 # 10)).

(** [_contains_all_words] *)
Definition _contains_all_words (query filename : str) : bool :=
  if (length (strip query) <? 3)%nat then true
  else
    let query_words := long_words (split_ws (lower query)) in
    let filename_lower := lower filename in
    let matches := count_hits query_words filename_lower in
    let required := required_hits query_words in
    if required <=? Z.of_nat matches then true
    else
      let norm_query := _normalize_text query in
      let norm_filename := _normalize_text filename in
      let norm_words := long_words (split_ws norm_query) in
      let norm_matches := count_hits norm_words norm_filename in
      required_hits norm_words <=? Z.of_nat norm_matches.
End Text.

(** ** Exceptions *)

Inductive exn :=
| JSONDecodeError | UnicodeDecodeError | KeyError | TypeError | AttributeError.

(** The outcome of a method: a value, an exception that leaves the method,
    or [Dynamic]: Python goes on with a [RomMatch] one of whose fields does
    not have the annotated type (the dataclass checks nothing), which the
    typed records of this embedding do not represent. *)
Inductive result (A : Type) :=
| Ok (a : A)
| Raise (e : exn)
| Dynamic.
Arguments Ok {A} a.
Arguments Raise {A} e.
Arguments Dynamic {A}.

#[global] Instance result_ret : MRet result := λ A a, Ok a.
#[global] Instance result_bind : MBind result := λ A B f m,
  match m with
  | Ok a => f a
  | Raise e => Raise e
  | Dynamic => Dynamic
  end.

Fixpoint traverse {A B} (f : A → result B) (l : list A) : result (list B) :=
  match l with
  | [] => Ok []
  | a :: l' => b ← f a; bs ← traverse f l'; Ok (b :: bs)
  end.

(** ** Python values in the cache file *)

#[warnings="-register-all"] Inductive json :=
| JNull
| JBool (b : bool)
| JInt (n : Z)
| JFloat (x : Q)
| JStr (s : str)
| JList (l : list json)
| JDict (kvs : list (str * json)).

(** A [dict] keeps its keys in insertion order. *)
Fixpoint dict_get {V} (k : str) (d : list (str * V)) : option V :=
  match d with
  | [] => None
  | (k', v) :: d' => if decide (k' = k) then Some v else dict_get k d'
  end.

(** [d[k] = v] *)
Fixpoint dict_set {V} (k : str) (v : V) (d : list (str * V)) : list (str * V) :=
  match d with
  | [] => [(k, v)]
  | (k', v') :: d' =>
      if decide (k' = k) then (k, v) :: d' else (k', v') :: dict_set k v d'
  end.

(** [{k: v for k, v in items}] *)
Definition dict_of {V} (items : list (str * V)) : list (str * V) :=
  foldl (λ d kv, dict_set kv.1 kv.2 d) [] items.

(** [x.get(k, dflt)]: only a [dict] has the method. *)
Definition py_get (x : json) (k : str) (dflt : json) : result json :=
  match x with
  | JDict d => Ok (default dflt (dict_get k d))
  | _ => Raise AttributeError
  end.

(** [x.items()] *)
Definition py_items (x : json) : result (list (str * json)) :=
  match x with
  | JDict d => Ok d
  | _ => Raise AttributeError
  end.

(** [for m in x]: a list gives its elements, a dict its keys, a string its
    characters; nothing else is iterable. *)
Definition py_iter (x : json) : result (list json) :=
  match x with
  | JList l => Ok l
  | JDict d => Ok (JStr <$> d.*1)
  | JStr s => Ok ((λ c, JStr [c]) <$> s)
  | _ => Raise TypeError
  end.

(** [x[k]] for a string [k] *)
Definition py_getitem (x : json) (k : str) : result json :=
  match x with
  | JDict d =>
      match dict_get k d with
      | Some v => Ok v
      | None => Raise KeyError
      end
  | _ => Raise TypeError
  end.

(** [x != s] for a string [s] *)
Definition py_ne_str (x : json) (s : str) : bool :=
  match x with
  | JStr t => negb (bool_decide (t = s))
  | _ => true
  end.

Definition as_str (x : json) : option str :=
  match x with JStr s => Some s | _ => None end.
Definition as_int (x : json) : option Z :=
  match x with JInt n => Some n | _ => None end.
Definition as_float (x : json) : option Q :=
  match x with JFloat q => Some q | JInt n => Some (inject_Z n) | _ => None end.

(** ** The file system and the engine *)

(** What [open] and [json.load] find in a cache file. *)
Inductive file_content :=
| Undecodable            (** bytes that are not UTF-8 *)
| NotJson                (** text that is not JSON *)
| Json (v : json).       (** the value [json.load] returns *)

(** An entry of [directory.rglob("*")]; [e_stat] is [(st_mtime, st_size)],
    [None] when [stat()] raises [OSError]. *)
Record entry := {
  e_name : str;
  e_path : str;
  e_is_file : bool;
  e_stat : option (Q * Z)
}.

Record directory := {
  d_stat : option (Q * Z);
  d_rglob : list entry
}.

Record World := {
  (** [base_dir / "Official" / system] *)
  official : gmap str directory;
  (** [base_dir / "Translations" / system] *)
  translations : gmap str directory;
  (** [cache_dir / f"{system}.json"] *)
  cache_files : gmap str file_content;
  (** whether writing into [cache_dir] succeeds *)
  cache_writable : bool;
  (** [time.time()] *)
  clock : Q
}.

Abbreviation index := (list (str * list RomMatch)).

Record Engine := {
  fuzzy_threshold : Q;
  _file_index : gmap str index
}.

Definition set_cache_file (system : str) (c : file_content) (w : World) : World :=
  {| official := official w; translations := translations w;
     cache_files := <[system := c]> (cache_files w);
     cache_writable := cache_writable w; clock := clock w |}.

Definition set_index (system : str) (matches : index) (self : Engine) : Engine :=
  {| fuzzy_threshold := fuzzy_threshold self;
     _file_index := <[system := matches]> (_file_index self) |}.

Definition OFFICIAL : str := Eval vm_compute in py "official".
Definition TRANSLATIONS : str := Eval vm_compute in py "translations".

Section Engine.
Context {U : Unicode} {F : Fuzz} {D : Digest}.

(** The loop of [_calculate_dir_hash] over the sampled entries; an [OSError]
    ends it, and the digest is of what was fed before. *)
Fixpoint feed_sample (es : list entry) (fed : str) : str :=
  match es with
  | [] => fed
  | e :: es' =>
      if e_is_file e then
        match e_stat e with
        | Some (mtime, sz) =>
            feed_sample es' (fed ++ str_of_float mtime ++ str_of_int sz)
        | None => fed
        end
      else feed_sample es' fed
  end.

(** [_calculate_dir_hash]; [None] is a directory that does not exist. *)
Definition _calculate_dir_hash (d : option directory) : str :=
  match d with
  | None => []
  | Some d =>
      md5_hexdigest
        match d_stat d with
        | Some (mtime, sz) =>
            feed_sample (take DIRECTORY_SAMPLE_SIZE (d_rglob d))
                        (str_of_float mtime ++ str_of_int sz)
        | None => []
        end
  end.

(** [json.load(f)] on the opened cache file. *)
Definition json_load (c : file_content) : result json :=
  match c with
  | Undecodable => Raise UnicodeDecodeError
  | NotJson => Raise JSONDecodeError
  | Json v => Ok v
  end.

(** The six subscriptions of [RomMatch(filename=match['filename'], ...)],
    in the order of the source. *)
Definition read_match (m : json) : result (json * json * json * json * json * json) :=
  f ← py_getitem m (py "filename");
  p ← py_getitem m (py "full_path");
  t ← py_getitem m (py "source_type");
  s ← py_getitem m (py "score");
  z ← py_getitem m (py "size");
  mt ← py_getitem m (py "modified_time");
  Ok (f, p, t, s, z, mt).

(** The loop [for source_type, files in ...items()] of [_load_cache]. *)
Fixpoint read_matches (items : list (str * json))
    (matches : list (str * list (json * json * json * json * json * json)))
    : result (list (str * list (json * json * json * json * json * json))) :=
  match items with
  | [] => Ok matches
  | (source_type, files) :: items' =>
      ms ← py_iter files;
      rs ← traverse read_match ms;
      read_matches items' (dict_set source_type rs matches)
  end.

(** The record of six values with the annotated types, when they have them. *)
Definition typed_match (r : json * json * json * json * json * json) : option RomMatch :=
  let '(f, p, t, s, z, mt) := r in
  f ← as_str f; p ← as_str p; t ← as_str t;
  s ← as_float s; z ← as_int z; mt ← as_float mt;
  Some {| filename := f; full_path := p; source_type := t;
          score := s; size := z; modified_time := mt |}.

Definition typed_index
    (matches : list (str * list (json * json * json * json * json * json)))
    : result index :=
  match mapM (λ kv, rs ← mapM typed_match kv.2; Some (kv.1, rs)) matches with
  | Some idx => Ok idx
  | None => Dynamic
  end.

(** The [try] block of [_load_cache]. *)
Definition load_body (self : Engine) (w : World) (system : str)
    (content : file_content) : result (bool * Engine) :=
  cache_data ← json_load content;
  version ← py_get cache_data (py "version") JNull;
  if py_ne_str version CACHE_VERSION then Ok (false, self)
  else
    let official_hash := _calculate_dir_hash (official w !! system) in
    let trans_hash := _calculate_dir_hash (translations w !! system) in
    stored_official ← py_get cache_data (py "official_hash") JNull;
    stored_trans ← py_get cache_data (py "translations_hash") JNull;
    if py_ne_str stored_official official_hash || py_ne_str stored_trans trans_hash
    then Ok (false, self)
    else
      ms ← py_get cache_data (py "matches") (JDict []);
      items ← py_items ms;
      raw ← read_matches items [];
      matches ← typed_index raw;
      Ok (true, set_index system matches self).

(** [except (json.JSONDecodeError, KeyError, TypeError)] *)
Definition caught (e : exn) : bool :=
  match e with
  | JSONDecodeError | KeyError | TypeError => true
  | UnicodeDecodeError | AttributeError => false
  end.

(** [_load_cache]: the value returned and the engine afterwards. *)
Definition _load_cache (self : Engine) (w : World) (system : str)
    : result (bool * Engine) :=
  match cache_files w !! system with
  | None => Ok (false, self)
  | Some content =>
      match load_body self w system content with
      | Raise e => if caught e then Ok (false, self) else Raise e
      | r => r
      end
  end.

(** The dict written for one record: [score] is not among its keys. *)
Definition match_to_json (m : RomMatch) : json :=
  JDict [(py "filename", JStr (filename m));
         (py "full_path", JStr (full_path m));
         (py "source_type", JStr (source_type m));
         (py "size", JInt (size m));
         (py "modified_time", JFloat (modified_time m))].

(** [_save_cache]: every exception is logged and swallowed. *)
Definition _save_cache (self : Engine) (w : World) (system : str) : World :=
  let matches := default [] (_file_index self !! system) in
  let cache_data :=
    JDict [(py "version", JStr CACHE_VERSION);
           (py "timestamp", JFloat (clock w));
           (py "official_hash", JStr (_calculate_dir_hash (official w !! system)));
           (py "translations_hash", JStr (_calculate_dir_hash (translations w !! system)));
           (py "matches",
            JDict (dict_of ((λ kv, (kv.1, JList (match_to_json <$> kv.2))) <$> matches)))] in
  if cache_writable w then set_cache_file system (Json cache_data) w else w.

(** [_scan_directory] *)
Definition scan_entry (source_type : str) (e : entry) : option RomMatch :=
  if negb (e_is_file e) then None
  else if negb (_is_rom_file (e_name e)) then None
  else match e_stat e with
       | Some (mtime, sz) =>
           Some {| filename := e_name e; full_path := e_path e;
                   source_type := source_type; score := 100;
                   size := sz; modified_time := mtime |}
       | None => None
       end.

Definition _scan_directory (d : option directory) (source_type : str) : list RomMatch :=
  match d with
  | None => []
  | Some d => omap (scan_entry source_type) (d_rglob d)
  end.

(** [_build_index] *)
Definition _build_index (w : World) (system : str) : index :=
  let matches := [] in
  let matches :=
    match official w !! system with
    | Some d => dict_set OFFICIAL (_scan_directory (Some d) OFFICIAL) matches
    | None => matches
    end in
  match translations w !! system with
  | Some d => dict_set TRANSLATIONS (_scan_directory (Some d) TRANSLATIONS) matches
  | None => matches
  end.

(** [_ensure_index] *)
Definition _ensure_index (self : Engine) (w : World) (system : str)
    : result (Engine * World) :=
  match _file_index self !! system with
  | Some _ => Ok (self, w)
  | None =>
      '(loaded, self) ← _load_cache self w system;
      if loaded : bool then Ok (self, w)
      else
        let matches := _build_index w system in
        let self := set_index system matches self in
        Ok (self, _save_cache self w system)
  end.

(** [_fuzzy_match_score] *)
Definition _fuzzy_match_score (query filename : str) : Q :=
  if RAPIDFUZZ_AVAILABLE then partial_ratio (lower query) (lower filename)
  else (sequence_ratio (lower query) (lower filename) * 100)%Q.

(** The body of the two nested loops of [search] for one indexed record. *)
Definition match_one (threshold : Q) (query : str) (rom_match : RomMatch)
    : option RomMatch :=
  if negb (_contains_all_words query (filename rom_match)) then None
  else
    let score := _fuzzy_match_score query (filename rom_match) in
    if Qle_bool threshold score then
      Some {| filename := filename rom_match;
              full_path := full_path rom_match;
              source_type := source_type rom_match;
              score := score;
              size := size rom_match;
              modified_time := modified_time rom_match |}
    else None.

(** [results] when the loops end. *)
Definition collect (threshold : Q) (query : str) (matches : index) : list RomMatch :=
  mjoin ((λ kv, omap (match_one threshold query) kv.2) <$> matches).

(** The key of [results.sort].  The sum is the exact one; the sum of two
    doubles may round, which changes no comparison of equal scores. *)
Definition is_translations (x : RomMatch) : bool :=
  bool_decide (source_type x = TRANSLATIONS).

Definition sort_key (x : RomMatch) : Q * bool * Z :=
  ((score x + (if is_translations x then 10 else 0))%Q, is_translations x, - size x).

(** [a < b] on such tuples: the first components that differ decide. *)
Definition key_lt (a b : Q * bool * Z) : bool :=
  let '(s1, t1, z1) := a in
  let '(s2, t2, z2) := b in
  if negb (Qeq_bool s1 s2) then negb (Qle_bool s2 s1)
  else if negb (eqb t1 t2) then negb t1 && t2
  else z1 <? z2.

(** [list.sort(key=..., reverse=True)]: descending keys, and records of
    equal keys keep their order. *)
Fixpoint insert_desc (x : RomMatch) (l : list RomMatch) : list RomMatch :=
  match l with
  | [] => [x]
  | y :: l' =>
      if key_lt (sort_key x) (sort_key y) then y :: insert_desc x l'
      else x :: l
  end.

Definition sort_reverse (l : list RomMatch) : list RomMatch :=
  foldr insert_desc [] l.

(** [l[:n]] *)
Definition slice_to {A} (n : Z) (l : list A) : list A :=
  if 0 <=? n then take (Z.to_nat n) l
  else take (length l - Z.to_nat (- n)) l.

(** [search] *)
Definition search (self : Engine) (w : World) (query system : str)
    (max_results : Z) : result (list RomMatch * Engine * World) :=
  match strip query with
  | [] => Ok ([], self, w)
  | _ =>
      '(self, w) ← _ensure_index self w system;
      let matches := default [] (_file_index self !! system) in
      let results := collect (fuzzy_threshold self) query matches in
      let results := sort_reverse results in
      Ok (slice_to max_results results, self, w)
  end.
End Engine.

(** ** The other public operations *)

(** [a < b] on strings: the order of their code points, the first that
    differ deciding, a proper prefix below. *)
Fixpoint str_lt (a b : str) : bool :=
  match a, b with
  | _, [] => false
  | [], _ :: _ => true
  | x :: a', y :: b' => (x <? y)%N || ((x =? y)%N && str_lt a' b')
  end.

Definition str_le (a b : str) : Prop := str_lt b a = false.

#[global] Instance str_le_dec : RelDecision str_le.
Proof. intros a b. unfold str_le. apply _. Defined.

(** What [iterdir()] yields under [Official] and under [Translations]: the
    name of each entry with its [is_dir()]; [None] is a root that does not
    exist. *)
Record Roots := {
  official_root : option (list (str * bool));
  translations_root : option (list (str * bool))
}.

(** The two loops of [get_systems]: the names [systems.add] receives. *)
Definition dir_names (root : option (list (str * bool))) : list str :=
  match root with
  | None => []
  | Some items => (List.filter (λ item : str * bool, item.2) items).*1
  end.

(** [get_systems]: [sorted] of the set of names. *)
Definition get_systems (r : Roots) : list str :=
  let systems : gset str :=
    list_to_set (dir_names (official_root r) ++ dir_names (translations_root r)) in
  merge_sort str_le (elements systems).

(** What the file system answers to [clear_cache]: [unlink_ok system],
    whether [unlink()] of the cache file of [system] succeeds when the file
    is there ([OSError] otherwise), and [globbed], the collections whose
    cache files [cache_dir.glob("*.json")] lists, in its order. *)
Record Unlinking := {
  unlink_ok : str → bool;
  globbed : list str
}.

Definition delete_cache_file (system : str) (w : World) : World :=
  {| official := official w; translations := translations w;
     cache_files := delete system (cache_files w);
     cache_writable := cache_writable w; clock := clock w |}.

(** [cache_file.unlink()]; [None] when it raises. *)
Definition unlink (u : Unlinking) (system : str) (w : World) : option World :=
  match cache_files w !! system with
  | Some _ => if unlink_ok u system then Some (delete_cache_file system w) else None
  | None => None
  end.

(** The loop over the globbed files: the world when it ends, and whether it
    ended without an exception. *)
Fixpoint unlink_each (u : Unlinking) (systems : list str) (w : World) : bool * World :=
  match systems with
  | [] => (true, w)
  | system :: systems' =>
      match unlink u system w with
      | Some w' => unlink_each u systems' w'
      | None => (false, w)
      end
  end.

(** How [clear_cache] ends: it returns, or an [OSError] of [unlink] leaves
    it, the index untouched and the files deleted so far gone. *)
Inductive cleared :=
| Cleared (self : Engine) (w : World)
| UnlinkError (self : Engine) (w : World).

(** [clear_cache]; [None] and the empty name are both false for [if system]. *)
Definition clear_cache (u : Unlinking) (self : Engine) (w : World)
    (system : option str) : cleared :=
  match system with
  | Some (c :: name) =>
      let system := c :: name in
      let popped :=
        {| fuzzy_threshold := fuzzy_threshold self;
           _file_index := delete system (_file_index self) |} in
      match cache_files w !! system with
      | Some _ =>
          match unlink u system w with
          | Some w' => Cleared popped w'
          | None => UnlinkError self w
          end
      | None => Cleared popped w
      end
  | _ =>
      match unlink_each u (globbed u) w with
      | (true, w') =>
          Cleared {| fuzzy_threshold := fuzzy_threshold self; _file_index := ∅ |} w'
      | (false, w') => UnlinkError self w'
      end
  end.

(** [sum(len(files) for system_matches in ... for files in ...)] of
    [get_stats]. *)
Definition total_files (self : Engine) : nat :=
  sum_list_with (λ entry : str * index, sum_list_with (λ kv : str * list RomMatch, length kv.2) entry.2)
    (map_to_list (_file_index self)).

Section Stats.
Context {F : Fuzz}.

(** [get_stats]; [cache_dir] and [max_workers] are the attributes of the
    engine of these names. *)
Definition get_stats (cache_dir : str) (max_workers : Z) (self : Engine)
    : list (str * json) :=
  [(py "systems_indexed", JInt (Z.of_nat (base.size (_file_index self))));
   (py "total_files", JInt (Z.of_nat (total_files self)));
   (py "cache_dir", JStr cache_dir);
   (py "max_workers", JInt max_workers);
   (py "fuzzy_threshold", JFloat (fuzzy_threshold self));
   (py "rapidfuzz_available", JBool RAPIDFUZZ_AVAILABLE)].
End Stats.

(** ** A runtime for closed examples

    The tables below are fragments of the ones of CPython 3: the examples
    only use strings on which they are the whole truth. *)

(** [str.isspace] of one character (the complete table). *)
Definition unicode_isspace (c : N) : bool :=
  bool_decide (c ∈ [9; 10; 11; 12; 13; 28; 29; 30; 31; 32; 133; 160; 5760;
                    8192; 8193; 8194; 8195; 8196; 8197; 8198; 8199; 8200;
                    8201; 8202; 8232; 8233; 8239; 8287; 12288]%N).

(** [str.lower] on Basic Latin and on U+0130 (LATIN CAPITAL LETTER I WITH
    DOT ABOVE, whose lower case is the two characters U+0069 U+0307);
    other characters are left as they are. *)
Definition basic_lower_char (c : N) : str :=
  if ((65 <=? c) && (c <=? 90))%N then [c + 32]%N
  else if (c =? 304)%N then [105; 775]%N
  else [c].

(** Canonical decomposition on Basic Latin (nothing decomposes) and on
    U+0130 (U+0049 U+0307) and U+00E9 (U+0065 U+0301). *)
Definition basic_nfd_char (c : N) : str :=
  if (c =? 304)%N then [73; 775]%N
  else if (c =? 233)%N then [101; 769]%N
  else [c].

(** The combining class of U+0300..U+0314 is 230; that of the characters of
    Basic Latin and Latin-1 is 0. *)
Definition basic_combining (c : N) : nat :=
  if ((768 <=? c) && (c <=? 788))%N then 230%nat else 0%nat.

Definition basic_unicode : Unicode :=
  {| lower s := s ≫= basic_lower_char;
     isspace := unicode_isspace;
     nfd s := s ≫= basic_nfd_char;
     combining := basic_combining |}.

(** [fuzz.partial_ratio(a, b)] is 100 when [a] occurs in [b]; the examples
    score no other pair (0 stands for the scores they do not need). *)
Definition substring_fuzz : Fuzz :=
  {| RAPIDFUZZ_AVAILABLE := true;
     partial_ratio a b := if contains a b then 100%Q else 0%Q;
     sequence_ratio a b := 0%Q |}.

(** A digest for examples: the text that was fed. *)
Definition plain_digest : Digest :=
  {| md5_hexdigest s := s;
     str_of_float x := [];
     str_of_int n := [] |}.

(** Data of the examples: a collection with one translated ROM in two
    dumps, indexed larger dump first. *)
Definition NES : str := Eval vm_compute in py "NES".

Definition mario_large : RomMatch :=
  {| filename := py "mario.zip";
     full_path := py "/roms/Translations/NES/a/mario.zip";
     source_type := TRANSLATIONS; score := 100; size := 20; modified_time := 0 |}.

Definition mario_small : RomMatch :=
  {| filename := py "mario.zip";
     full_path := py "/roms/Translations/NES/b/mario.zip";
     source_type := TRANSLATIONS; score := 100; size := 10; modified_time := 0 |}.

Definition mario_index : index := [(TRANSLATIONS, [mario_large; mario_small])].

Definition mario_engine : Engine :=
  {| fuzzy_threshold := DEFAULT_FUZZY_THRESHOLD;
     _file_index := {[ NES := mario_index ]} |}.

Definition fresh_engine : Engine :=
  {| fuzzy_threshold := DEFAULT_FUZZY_THRESHOLD; _file_index := ∅ |}.

Definition empty_world : World :=
  {| official := ∅; translations := ∅; cache_files := ∅;
     cache_writable := true; clock := 0 |}.


(** A world whose cache file for the collection holds the JSON text [[]]. *)
Definition array_world : World :=
  {| official := ∅; translations := ∅;
     cache_files := {[ NES := Json (JList []) ]};
     cache_writable := true; clock := 0 |}.

(** A query of two one-character words, each U+0130, and a file named
    after it. *)
Definition dotted_query : str := [304; 32; 304]%N.

Definition dotted_rom : RomMatch :=
  {| filename := dotted_query ++ py ".zip";
     full_path := py "/roms/Official/NES/" ++ dotted_query ++ py ".zip";
     source_type := OFFICIAL; score := 100; size := 1; modified_time := 0 |}.

Definition dotted_engine : Engine :=
  {| fuzzy_threshold := DEFAULT_FUZZY_THRESHOLD;
     _file_index := {[ NES := [(OFFICIAL, [dotted_rom])] ]} |}.

(** ** What the specification calls things *)

Section Vocabulary.
Context {U : Unicode} {F : Fuzz}.

(** The number of characters of [s] that are not whitespace. *)
Definition non_whitespace (s : str) : nat :=
  length (List.filter (λ c, negb (isspace c)) s).

(** [w] occurs as a substring of [text]. *)
Definition occurs_in (w text : str) : Prop :=
  ∃ pre post, text = pre ++ w ++ post.

(** At least [k] of [words] occur as substrings of [text]. *)
Definition at_least (k : Z) (words : list str) (text : str) : Prop :=
  ∃ hits, hits `sublist_of` words ∧ k ≤ Z.of_nat (length hits) ∧
          Forall (λ w, occurs_in w text) hits.

(** The two quotas: 60% of the words rounded up, as the specification has
    it, and rounded down; one at least in both. *)
Definition quota_ceil (n : nat) : Z :=
  1 `max` Qceiling ((6 # 10) * inject_Z (Z.of_nat n)).
Definition quota_floor (n : nat) : Z :=
  1 `max` Qfloor ((6 # 10) * inject_Z (Z.of_nat n)).

(** The pre-filter of the specification for a quota: the check on the
    lowercased text or the check on the normalized text succeeds. *)
Definition prefilter_spec (quota : nat → Z) (query filename : str) : Prop :=
  (let words := long_words (split_ws (lower query)) in
   at_least (quota (length words)) words (lower filename)) ∨
  (let words := long_words (split_ws (_normalize_text query)) in
   at_least (quota (length words)) words (_normalize_text filename)).

(** The records of an index, in the order the loops of [search] visit them. *)
Definition indexed (matches : index) : list RomMatch := mjoin (matches.*2).

(** [x] may stand before [y] in a list sorted with [reverse=True]. *)
Definition not_below (x y : RomMatch) : Prop :=
  key_lt (sort_key x) (sort_key y) = false.

(** The indexed record [m] with its score replaced by the one measured
    for [query]. *)
Definition rescored (query : str) (m : RomMatch) : RomMatch :=
  {| filename := filename m;
     full_path := full_path m;
     source_type := source_type m;
     score := _fuzzy_match_score query (filename m);
     size := size m;
     modified_time := modified_time m |}.
End Vocabulary.

(** ** Strings *)

Section StringFacts.
Context {U : Unicode}.

Lemma lstrip_blank (s : str) :
  (∀ c, c ∈ s → isspace c = true) → lstrip s = [].
Proof.
  induction s as [|c s IH]; intros Hs; [done|].
  simpl. rewrite (Hs c) by set_solver. apply IH. intros; apply Hs; set_solver.
Qed.

Lemma strip_blank (s : str) :
  (∀ c, c ∈ s → isspace c = true) → strip s = [].
Proof. intros Hs. unfold strip, rstrip. by rewrite (lstrip_blank s). Qed.

Lemma non_whitespace_le (s : str) : (non_whitespace s ≤ length s)%nat.
Proof. apply List.filter_length_le. Qed.

Lemma non_whitespace_app (s t : str) :
  non_whitespace (s ++ t) = (non_whitespace s + non_whitespace t)%nat.
Proof. unfold non_whitespace. by rewrite List.filter_app, length_app. Qed.

Lemma non_whitespace_reverse (s : str) :
  non_whitespace (reverse s) = non_whitespace s.
Proof.
  induction s as [|c s IH]; [done|].
  rewrite reverse_cons, non_whitespace_app, IH.
  change (c :: s) with ([c] ++ s). rewrite non_whitespace_app. lia.
Qed.

Lemma non_whitespace_lstrip (s : str) :
  non_whitespace (lstrip s) = non_whitespace s.
Proof.
  induction s as [|c s IH]; [done|].
  simpl. destruct (isspace c) eqn:Hc; [|done].
  rewrite IH. unfold non_whitespace. simpl. by rewrite Hc.
Qed.

Lemma non_whitespace_strip (s : str) :
  non_whitespace (strip s) = non_whitespace s.
Proof.
  unfold strip, rstrip.
  by rewrite non_whitespace_reverse, non_whitespace_lstrip,
    non_whitespace_reverse, non_whitespace_lstrip.
Qed.

(** Stripping leaves every character that is not whitespace. *)
Lemma non_whitespace_le_strip (s : str) :
  (non_whitespace s ≤ length (strip s))%nat.
Proof. rewrite <- non_whitespace_strip. apply non_whitespace_le. Qed.

Lemma split_on_no_sep (sep : N) (s : str) : sep ∉ s → split_on sep s = [s].
Proof.
  induction s as [|c s IH]; [done|]. intros [Hc Hs]%not_elem_of_cons.
  simpl. destruct (N.eqb_spec c sep) as [->|_]; [done|]. by rewrite IH.
Qed.

(** A name without a dot is its own last segment. *)
Lemma is_rom_file_dotless (filename : str) :
  DOT ∉ lower filename →
  _is_rom_file filename = bool_decide (lower filename ∈ ROM_EXTENSIONS).
Proof. intros Hdot. unfold _is_rom_file. by rewrite split_on_no_sep. Qed.

Lemma startswith_spec (s w : str) :
  startswith s w = true ↔ ∃ post, s = w ++ post.
Proof.
  revert s. induction w as [|a w IH]; intros s; simpl.
  - split; [by exists s|done].
  - destruct s as [|b s]; [split; [done|by intros [? ?]]|].
    rewrite andb_true_iff, N.eqb_eq, IH. split.
    + by intros [-> [post ->]]; exists post.
    + intros [post Hs]; simplify_eq; eauto.
Qed.

Lemma contains_spec (w s : str) : contains w s = true ↔ occurs_in w s.
Proof.
  unfold occurs_in. induction s as [|b s IH]; simpl.
  - rewrite orb_false_r, startswith_spec. split.
    + intros [post ->]. by exists [], post.
    + intros ([|??] & post & Hs); [by exists post|done].
  - rewrite orb_true_iff, startswith_spec, IH. split.
    + intros [[post ->]|(pre & post & ->)];
        [by exists [], post|by exists (b :: pre), post].
    + intros ([|c pre] & post & Hs); simplify_eq/=; [left|right]; eauto.
Qed.

Lemma count_hits_sublist (hits words : list str) (text : str) :
  hits `sublist_of` words → Forall (λ w, occurs_in w text) hits →
  (length hits ≤ count_hits words text)%nat.
Proof.
  unfold count_hits. induction 1 as [|x l1 l2 _ IH|x l1 l2 _ IH]; intros Hall; simpl.
  - lia.
  - apply Forall_cons in Hall as [Hx Hall]. apply contains_spec in Hx.
    rewrite Hx. simpl. specialize (IH Hall). lia.
  - specialize (IH Hall). destruct (contains x text); simpl; lia.
Qed.

Lemma filter_sublist_of {A} (f : A → bool) (l : list A) :
  List.filter f l `sublist_of` l.
Proof.
  induction l as [|x l IH]; simpl; [constructor|].
  destruct (f x); by constructor.
Qed.

(** Counting the hits decides "at least [k] of the words occur". *)
Lemma at_least_count (k : Z) (words : list str) (text : str) :
  at_least k words text ↔ k ≤ Z.of_nat (count_hits words text).
Proof.
  split.
  - intros (hits & Hsub & Hk & Hall).
    pose proof (count_hits_sublist _ _ _ Hsub Hall). lia.
  - intros Hk. exists (List.filter (λ word, contains word text) words).
    split_and!; [apply filter_sublist_of|done|].
    apply Forall_forall. intros w [_ Hw]%list_elem_of_In%List.filter_In.
    by apply contains_spec.
Qed.

(** [int(n * 0.6)] is the floor of six tenths of [n]. *)
Lemma required_hits_floor (words : list str) :
  required_hits words = quota_floor (length words).
Proof.
  unfold required_hits, quota_floor, py_int, Qfloor. f_equal.
  simpl. rewrite Z.quot_div_nonneg by lia. f_equal; lia.
Qed.

(** The pre-filter of the source, past its guard, is the one of the
    specification with the quota rounded down. *)
Lemma contains_all_words_long (query filename : str) :
  (3 ≤ length (strip query))%nat →
  _contains_all_words query filename = true ↔
  prefilter_spec quota_floor query filename.
Proof.
  intros Hlen. unfold _contains_all_words, prefilter_spec.
  destruct (Nat.ltb_spec (length (strip query)) 3) as [?|_]; [lia|].
  cbv zeta. rewrite !at_least_count, <- !required_hits_floor.
  destruct (Z.leb_spec (required_hits (long_words (split_ws (lower query))))
              (Z.of_nat (count_hits (long_words (split_ws (lower query)))
                 (lower filename)))).
  - naive_solver.
  - rewrite Z.leb_le. split; [auto|]. intros [?|?]; [lia|done].
Qed.

Lemma long_words_none (ws : list str) :
  (∀ w, w ∈ ws → (length w < 2)%nat) → long_words ws = [].
Proof.
  unfold long_words. induction ws as [|w ws IH]; intros Hws; [done|].
  cbn [List.filter].
  assert (length w < 2)%nat by (apply Hws; set_solver).
  destruct (Nat.leb_spec 2 (length w)); [lia|].
  apply IH. intros; apply Hws; set_solver.
Qed.

(** With no word of two characters on either side the pre-filter, past
    its guard, rejects. *)
Lemma contains_all_words_no_word (query filename : str) :
  (3 ≤ length (strip query))%nat →
  long_words (split_ws (lower query)) = [] →
  long_words (split_ws (_normalize_text query)) = [] →
  _contains_all_words query filename = false.
Proof.
  intros Hlen Hraw Hnorm. unfold _contains_all_words.
  destruct (Nat.ltb_spec (length (strip query)) 3) as [?|_]; [lia|].
  by rewrite Hraw, Hnorm.
Qed.
End StringFacts.

(** ** Ranking *)

Section Ranking.
#[local] Arguments key_lt : simpl never.
#[local] Arguments sort_key : simpl never.

Lemma key_lt_true (s1 s2 : Q) (t1 t2 : bool) (z1 z2 : Z) :
  key_lt (s1, t1, z1) (s2, t2, z2) = true ↔
  (s1 < s2)%Q ∨ ((s1 == s2)%Q ∧ (t1 = false ∧ t2 = true ∨ t1 = t2 ∧ z1 < z2)).
Proof.
  unfold key_lt.
  destruct (Qeq_bool s1 s2) eqn:Hs; simpl.
  - apply Qeq_bool_iff in Hs.
    destruct t1, t2; simpl; rewrite ?Z.ltb_lt; split;
      try (intros [?|[_ [[??]|[??]]]]); try done; try lra; auto.
  - apply Qeq_bool_neq in Hs. rewrite negb_true_iff.
    destruct (Qle_bool s2 s1) eqn:Hle.
    + apply Qle_bool_iff in Hle. split; [done|]. intros [?|[? _]]; [lra|done].
    + split; [|done]. intros _. left.
      destruct (Qlt_le_dec s1 s2) as [|Hge]; [done|].
      apply Qle_bool_iff in Hge. congruence.
Qed.

Lemma key_lt_false (s1 s2 : Q) (t1 t2 : bool) (z1 z2 : Z) :
  key_lt (s1, t1, z1) (s2, t2, z2) = false ↔
  (s2 < s1)%Q ∨ ((s1 == s2)%Q ∧ (t1 = true ∧ t2 = false ∨ t1 = t2 ∧ z2 ≤ z1)).
Proof.
  rewrite <- not_true_iff_false, key_lt_true. split.
  - intros Hn. destruct (Q_dec s1 s2) as [[Hlt|Hgt]|Heq]; [tauto|tauto|].
    right. split; [done|].
    destruct t1, t2; try tauto; right;
      (split; [done|]); destruct (Z.le_gt_cases z2 z1); tauto.
  - intros [?|[? [[-> ->]|[-> ?]]]] [?|[? [[??]|[??]]]];
      simplify_eq; try lra; lia.
Qed.

#[local] Instance not_below_trans : Transitive not_below.
Proof.
  intros x y z. unfold not_below.
  destruct (sort_key x) as [[s1 t1] z1], (sort_key y) as [[s2 t2] z2],
    (sort_key z) as [[s3 t3] z3].
  rewrite !key_lt_false.
  intros [?|[? [[-> ->]|[-> ?]]]] [?|[? [[??]|[??]]]]; simplify_eq;
    first [left; lra | right; split; [lra|]; first [left; done | right; split; [done|lia]]].
Qed.

Lemma insert_desc_perm (x : RomMatch) (l : list RomMatch) :
  insert_desc x l ≡ₚ x :: l.
Proof.
  induction l as [|y l IH]; [done|].
  simpl. destruct (key_lt (sort_key x) (sort_key y)); [|reflexivity].
  rewrite IH. apply Permutation_swap.
Qed.

Lemma sort_reverse_perm (l : list RomMatch) : sort_reverse l ≡ₚ l.
Proof.
  induction l as [|x l IH]; [done|].
  simpl. by rewrite insert_desc_perm, IH.
Qed.

Lemma insert_desc_sorted (x : RomMatch) (l : list RomMatch) :
  StronglySorted not_below l → StronglySorted not_below (insert_desc x l).
Proof.
  induction 1 as [|y l Hl IH Hy]; simpl; [repeat constructor|].
  destruct (key_lt (sort_key x) (sort_key y)) eqn:Hxy.
  - constructor; [done|].
    rewrite insert_desc_perm. constructor; [|done].
    unfold not_below.
    destruct (sort_key x) as [[s1 t1] z1], (sort_key y) as [[s2 t2] z2].
    apply key_lt_true in Hxy. apply key_lt_false.
    destruct Hxy as [?|[? [[-> ->]|[-> ?]]]];
      first [left; lra | right; split; [lra|]; first [left; done | right; split; [done|lia]]].
  - constructor; [by constructor|].
    constructor; [done|].
    eapply Forall_impl; [exact Hy|]. intros z Hz. by transitivity y.
Qed.

Lemma sort_reverse_sorted (l : list RomMatch) :
  StronglySorted not_below (sort_reverse l).
Proof.
  induction l as [|x l IH]; simpl; [constructor|by apply insert_desc_sorted].
Qed.

Lemma sorted_lookup (l : list RomMatch) (i j : nat) (a b : RomMatch) :
  StronglySorted not_below l →
  l !! i = Some a → l !! j = Some b → (i < j)%nat → not_below a b.
Proof.
  intros Hl. revert i j. induction Hl as [|x l _ IH Hx]; intros i j Hi Hj Hij.
  - done.
  - destruct j as [|j]; [lia|]. destruct i as [|i]; simplify_eq/=.
    + rewrite Forall_forall in Hx. apply Hx. by eapply list_elem_of_lookup_2.
    + apply (IH i j); [done|done|lia].
Qed.

(** [l[:n]] is a prefix of [l], and all of it when [n] is its length or more. *)
Lemma slice_to_take {A} (n : Z) (l : list A) : ∃ k, slice_to n l = take k l.
Proof. unfold slice_to. destruct (0 <=? n); eauto. Qed.

Lemma slice_to_all {A} (n : Z) (l : list A) :
  Z.of_nat (length l) ≤ n → slice_to n l = l.
Proof.
  intros Hn. unfold slice_to.
  destruct (Z.leb_spec 0 n); [|lia]. apply take_ge. lia.
Qed.

Lemma slice_to_lookup {A} (n : Z) (l : list A) (i : nat) (a : A) :
  slice_to n l !! i = Some a → l !! i = Some a.
Proof.
  destruct (slice_to_take n l) as [k ->]. by intros [? _]%lookup_take_Some.
Qed.

Lemma slice_to_elem_of {A} (n : Z) (l : list A) (a : A) :
  a ∈ slice_to n l → a ∈ l.
Proof.
  intros [i Hi]%list_elem_of_lookup_1. eapply list_elem_of_lookup_2, slice_to_lookup, Hi.
Qed.
End Ranking.

(** ** The cache *)

Lemma bind_Ok {A B} (m : result A) (f : A → result B) (b : B) :
  m ≫= f = Ok b ↔ ∃ a, m = Ok a ∧ f a = Ok b.
Proof.
  destruct m; simpl; split; try done; try by intros (? & ? & ?).
  - eauto.
  - by intros (? & ? & ?); simplify_eq.
Qed.

Ltac inv_result H :=
  repeat first
    [ apply bind_Ok in H as (? & ? & H)
    | match type of H with
      | (if ?c then _ else _) = _ => destruct c eqn:?
      end
    | progress simplify_eq/= ].

Section CacheFacts.
Context {U : Unicode} {F : Fuzz} {D : Digest}.

Lemma py_ne_str_false (x : json) (s : str) :
  py_ne_str x s = false ↔ x = JStr s.
Proof.
  destruct x; simpl; try (split; done).
  rewrite negb_false_iff, bool_decide_eq_true. split; congruence.
Qed.

Lemma default_null_str (o : option json) (s : str) :
  default JNull o = JStr s → o = Some (JStr s).
Proof. destruct o; simpl; congruence. Qed.

(** A miss leaves the engine as it was: nothing of the file is merged. *)
Lemma load_cache_miss (self self' : Engine) (w : World) (system : str) :
  _load_cache self w system = Ok (false, self') → self' = self.
Proof.
  unfold _load_cache. intros Hload.
  destruct (cache_files w !! system) as [content|]; [|by simplify_eq].
  destruct (load_body self w system content) as [[b s]|e|] eqn:Hbody;
    [|by destruct (caught e); simplify_eq|done].
  simplify_eq. unfold load_body in Hbody. inv_result Hbody; done.
Qed.

(** A hit stores a file that is an object with the expected version and the
    two fingerprints of the directories as they are now. *)
Lemma load_cache_hit (self self' : Engine) (w : World) (system : str) :
  _load_cache self w system = Ok (true, self') →
  ∃ d matches,
    cache_files w !! system = Some (Json (JDict d)) ∧
    dict_get (py "version") d = Some (JStr CACHE_VERSION) ∧
    dict_get (py "official_hash") d =
      Some (JStr (_calculate_dir_hash (official w !! system))) ∧
    dict_get (py "translations_hash") d =
      Some (JStr (_calculate_dir_hash (translations w !! system))) ∧
    self' = set_index system matches self.
Proof.
  unfold _load_cache. intros Hload.
  destruct (cache_files w !! system) as [content|]; [|by simplify_eq].
  destruct (load_body self w system content) as [[b s]|e|] eqn:Hbody;
    [|by destruct (caught e); simplify_eq|done].
  simplify_eq. unfold load_body in Hbody.
  destruct content as [| |[]]; simplify_eq/=.
  destruct (py_ne_str _ CACHE_VERSION) eqn:Hv in Hbody; simplify_eq/=.
  destruct (py_ne_str _ _) eqn:Ho in Hbody; simplify_eq/=.
  destruct (py_ne_str _ _) eqn:Ht in Hbody; simplify_eq/=.
  apply py_ne_str_false, default_null_str in Hv, Ho, Ht.
  inv_result Hbody. eauto 10.
Qed.

Lemma py_ne_str_refl (s : str) : py_ne_str (JStr s) s = false.
Proof. by apply py_ne_str_false. Qed.

Lemma dict_set_fresh {V} (k : str) (v : V) (d : list (str * V)) :
  k ∉ d.*1 → dict_set k v d = d ++ [(k, v)].
Proof.
  induction d as [|[k' v'] d IH]; intros Hk; [done|].
  apply not_elem_of_cons in Hk as [Hk Hd].
  simpl. rewrite decide_False by done. f_equal. by apply IH.
Qed.

Lemma foldl_dict_set {V} (d items : list (str * V)) :
  NoDup (d ++ items).*1 →
  foldl (λ d kv, dict_set kv.1 kv.2 d) d items = d ++ items.
Proof.
  revert d. induction items as [|[k v] items IH]; intros d Hd; simpl.
  - by rewrite app_nil_r.
  - rewrite dict_set_fresh.
    + rewrite IH; by rewrite <- app_assoc.
    + rewrite fmap_app, NoDup_app in Hd. destruct Hd as (_ & Hd & _).
      intros Hk. apply (Hd k Hk). simpl. left.
Qed.

Lemma dict_of_NoDup {V} (items : list (str * V)) :
  NoDup items.*1 → dict_of items = items.
Proof. intros Hd. unfold dict_of. by rewrite foldl_dict_set. Qed.

(** A record as [_save_cache] writes it has no key [score], which
    [_load_cache] subscripts. *)
Lemma read_match_saved (m : RomMatch) :
  read_match (match_to_json m) = Raise KeyError.
Proof. reflexivity. Qed.

Lemma read_matches_saved (idx : index) acc :
  indexed idx ≠ [] →
  read_matches ((λ kv, (kv.1, JList (match_to_json <$> kv.2))) <$> idx) acc
  = Raise KeyError.
Proof.
  revert acc. induction idx as [|[k rs] idx IH]; intros acc Hne; [done|].
  destruct rs as [|m rs]; simpl.
  - apply IH. exact Hne.
  - reflexivity.
Qed.

(** A cache file that holds a JSON array. *)
Lemma load_cache_array (self : Engine) (w : World) (system : str) (l : list json) :
  cache_files w !! system = Some (Json (JList l)) →
  _load_cache self w system = Raise AttributeError.
Proof. intros Hfile. unfold _load_cache. by rewrite Hfile. Qed.

(** A cache file that is not UTF-8. *)
Lemma load_cache_undecodable (self : Engine) (w : World) (system : str) :
  cache_files w !! system = Some Undecodable →
  _load_cache self w system = Raise UnicodeDecodeError.
Proof. intros Hfile. unfold _load_cache. by rewrite Hfile. Qed.

Lemma ensure_index_indexed (self : Engine) (w : World) (system : str) (idx : index) :
  _file_index self !! system = Some idx →
  _ensure_index self w system = Ok (self, w).
Proof. intros Hidx. unfold _ensure_index. by rewrite Hidx. Qed.

(** [_ensure_index] binds the index of [system] and nothing else. *)
Lemma ensure_index_frame (self self' : Engine) (w w' : World) (system : str) :
  _ensure_index self w system = Ok (self', w') →
  fuzzy_threshold self' = fuzzy_threshold self ∧
  is_Some (_file_index self' !! system) ∧
  ∀ system', system' ≠ system →
    _file_index self' !! system' = _file_index self !! system'.
Proof.
  unfold _ensure_index. intros Hens.
  destruct (_file_index self !! system) as [idx|] eqn:Hidx.
  { simplify_eq. by rewrite Hidx. }
  apply bind_Ok in Hens as ([[] self1] & Hload & Hens); simplify_eq/=.
  - apply load_cache_hit in Hload as (? & ? & _ & _ & _ & _ & ->). simpl.
    rewrite lookup_insert_eq. split_and!; [done|done|].
    intros. by rewrite lookup_insert_ne.
  - apply load_cache_miss in Hload as ->.
    rewrite lookup_insert_eq. split_and!; [done|done|].
    intros. by rewrite lookup_insert_ne.
Qed.
End CacheFacts.

(** ** Search *)

Section SearchFacts.
Context {U : Unicode} {F : Fuzz} {D : Digest}.

Lemma match_one_Some (threshold : Q) (query : str) (m r : RomMatch) :
  match_one threshold query m = Some r ↔
  _contains_all_words query (filename m) = true ∧
  (threshold <= _fuzzy_match_score query (filename m))%Q ∧
  r = rescored query m.
Proof.
  unfold match_one, rescored. rewrite <- Qle_bool_iff.
  destruct (_contains_all_words query (filename m)); simpl;
    [|by split; [|intros [? _]]].
  destruct (Qle_bool threshold _); split; try done.
  - by intros [= <-].
  - by intros (_ & _ & ->).
  - by intros (_ & ? & _).
Qed.

Lemma collect_indexed (threshold : Q) (query : str) (matches : index) :
  collect threshold query matches
  = omap (match_one threshold query) (indexed matches).
Proof.
  unfold collect, indexed. induction matches as [|[k rs] idx IH]; [done|].
  csimpl. by rewrite IH, omap_app.
Qed.

Lemma elem_of_collect (threshold : Q) (query : str) (matches : index) (r : RomMatch) :
  r ∈ collect threshold query matches ↔
  ∃ m, m ∈ indexed matches ∧
       _contains_all_words query (filename m) = true ∧
       (threshold <= _fuzzy_match_score query (filename m))%Q ∧
       r = rescored query m.
Proof.
  rewrite collect_indexed, list_elem_of_omap.
  by setoid_rewrite match_one_Some.
Qed.

(** The two ways [search] returns. *)
Lemma search_Ok (self self' : Engine) (w w' : World) (query system : str)
    (max_results : Z) (res : list RomMatch) :
  search self w query system max_results = Ok (res, self', w') →
  strip query = [] ∧ res = [] ∧ self' = self ∧ w' = w ∨
  strip query ≠ [] ∧ _ensure_index self w system = Ok (self', w') ∧
  res = slice_to max_results
          (sort_reverse
             (collect (fuzzy_threshold self) query
                (default [] (_file_index self' !! system)))).
Proof.
  unfold search. intros Hs. destruct (strip query) eqn:Hq.
  - left. by simplify_eq.
  - right. apply bind_Ok in Hs as ([self1 w1] & Hens & Hs). simplify_eq.
    apply ensure_index_frame in Hens as Hfr. destruct Hfr as (-> & _).
    done.
Qed.
End SearchFacts.

(** ** The properties of the specification *)

Section Claims.
Context {U : Unicode} {F : Fuzz} {D : Digest}.

(** C1 (what the code does instead of the round trip).  When the index
    saved for a collection (a dict: its provenance keys are distinct) holds
    at least one record, loading the file that [_save_cache] has just
    written, on an unchanged file system, is a miss: the written records
    have no [score], [_load_cache] subscripts it, and the [KeyError] of the
    first record read is caught and answered with [False]. *)
Theorem save_then_load_misses (self self0 : Engine) (w : World)
    (system : str) (idx : index) :
  _file_index self !! system = Some idx →
  NoDup idx.*1 → indexed idx ≠ [] → cache_writable w = true →
  _load_cache self0 (_save_cache self w system) system = Ok (false, self0).
Proof.
  intros Hidx Hdup Hne Hw. unfold _save_cache. rewrite Hidx, Hw. simpl.
  unfold _load_cache, set_cache_file. simpl. rewrite lookup_insert_eq.
  unfold load_body. simpl.
  rewrite !bool_decide_eq_true_2 by done. simpl.
  rewrite dict_of_NoDup by (by rewrite <- list_fmap_compose).
  by rewrite read_matches_saved.
Qed.

(** C2 (amended).  Of two returned records with equal scores and equal
    provenance tags, the one with the smaller size stands first. *)
Theorem search_size_tie_break (self self' : Engine) (w w' : World)
    (query system : str) (max_results : Z) (res : list RomMatch)
    (i j : nat) (a b : RomMatch) :
  search self w query system max_results = Ok (res, self', w') →
  res !! i = Some a → res !! j = Some b →
  (score a == score b)%Q → source_type a = source_type b →
  size a < size b →
  (i < j)%nat.
Proof.
  intros Hs Hi Hj Hscore Htag Hsize.
  apply search_Ok in Hs as [(_ & -> & _)|(_ & _ & ->)]; [done|].
  apply slice_to_lookup in Hi, Hj.
  destruct (Nat.lt_trichotomy i j) as [?|[->|Hji]]; [done| |].
  - simplify_eq. lia.
  - pose proof (sorted_lookup _ _ _ _ _ (sort_reverse_sorted _) Hj Hi Hji) as Hba.
    unfold not_below, sort_key, is_translations in Hba.
    rewrite Htag in Hba. apply key_lt_false in Hba.
    destruct Hba as [?|[_ [[??]|[_ ?]]]]; [lra|congruence|lia].
Qed.

(** C4 (amended).  For a query with at least three characters that are not
    whitespace, the pre-filter passes exactly when at least
    max(1, floor(0.6 × wordCount)) of the query's words of length two or
    more occur in the filename, on the lowercased text or on the normalized
    text. *)
Theorem prefilter_quota_floor (query filename : str) :
  (3 ≤ non_whitespace query)%nat →
  _contains_all_words query filename = true ↔
  prefilter_spec quota_floor query filename.
Proof.
  intros Hq. apply contains_all_words_long.
  pose proof (non_whitespace_le_strip query). lia.
Qed.

(** C5 (amended).  A query whose stripped text has fewer than three
    characters, the whitespace inside it counted, passes every filename. *)
Theorem short_query_bypass (query filename : str) :
  (length (strip query) < 3)%nat → _contains_all_words query filename = true.
Proof.
  intros Hlen. unfold _contains_all_words.
  by destruct (Nat.ltb_spec (length (strip query)) 3); [|lia].
Qed.

(** C6 (amended).  For a record of the index that passes the pre-filter: at
    any limit it is among the results only if its fuzzy score is at least
    the threshold; and when the query is not blank and the limit is at least
    the number of records kept, it is among the results exactly when its
    fuzzy score is at least the threshold. *)
Theorem search_threshold (self self' : Engine) (w w' : World)
    (query system : str) (max_results : Z) (res : list RomMatch) (m : RomMatch) :
  search self w query system max_results = Ok (res, self', w') →
  m ∈ indexed (default [] (_file_index self' !! system)) →
  _contains_all_words query (filename m) = true →
  (rescored query m ∈ res →
   (fuzzy_threshold self <= _fuzzy_match_score query (filename m))%Q) ∧
  (strip query ≠ [] →
   Z.of_nat (length (collect (fuzzy_threshold self) query
                       (default [] (_file_index self' !! system)))) ≤ max_results →
   rescored query m ∈ res ↔
   (fuzzy_threshold self <= _fuzzy_match_score query (filename m))%Q).
Proof.
  intros Hs Hm Hpre.
  assert (rescored query m ∈ res →
    (fuzzy_threshold self <= _fuzzy_match_score query (filename m))%Q) as Hin.
  { apply search_Ok in Hs as [(_ & -> & _)|(_ & _ & ->)];
      [by intros ?%elem_of_nil|].
    intros Hr%slice_to_elem_of. rewrite sort_reverse_perm in Hr.
    apply elem_of_collect in Hr as (m' & _ & _ & Hle & Heq).
    apply (f_equal filename) in Heq. simpl in Heq. by rewrite Heq. }
  split; [done|]. intros Hq Hn. split; [done|]. intros Hle.
  apply search_Ok in Hs as [(? & _)|(_ & _ & ->)]; [done|].
  rewrite slice_to_all by (by rewrite sort_reverse_perm).
  rewrite sort_reverse_perm. apply elem_of_collect. eauto.
Qed.

(** C7.  A query that is empty or all whitespace returns the empty list,
    no exception, for every collection and limit; the engine and the file
    system are as before. *)
Theorem search_blank_query (self : Engine) (w : World) (query system : str)
    (max_results : Z) :
  Forall (λ c, isspace c = true) query →
  search self w query system max_results = Ok ([], self, w).
Proof.
  intros Hq. unfold search. rewrite strip_blank; [done|].
  by apply Forall_forall.
Qed.

(** C8 (where the code departs from the claim).  A cache file that is not
    UTF-8, or that holds JSON that is not an object (an array, a string, a
    number, [null]), is not a miss: [_load_cache] raises an exception its
    [except] clause does not catch, and so does a [search] that has to load
    the collection. *)
Theorem load_cache_raises (self : Engine) (w : World) (system : str)
    (content : file_content) :
  cache_files w !! system = Some content →
  content = Undecodable ∨ (∃ v, content = Json v ∧ ∀ d, v ≠ JDict d) →
  ∃ e, caught e = false ∧
       _load_cache self w system = Raise e ∧
       ∀ query max_results,
         strip query ≠ [] → _file_index self !! system = None →
         search self w query system max_results = Raise e.
Proof.
  intros Hfile Hcontent.
  assert (∃ e, caught e = false ∧ _load_cache self w system = Raise e)
    as (e & He & Hload).
  { unfold _load_cache. rewrite Hfile.
    destruct Hcontent as [->|(v & -> & Hv)].
    - by exists UnicodeDecodeError.
    - exists AttributeError. by destruct v; [..|destruct (Hv kvs)]. }
  exists e. split_and!; [done|done|].
  intros query n Hq Hidx. unfold search, _ensure_index.
  destruct (strip query); [done|]. by rewrite Hidx, Hload.
Qed.

(** C9.  Every record [search] returns is the copy of an indexed record
    with the score replaced by the one measured for the query.  The engine
    and the file system after a search are those [_ensure_index] leaves
    (scoring, ranking and truncation change nothing); a search of a
    collection that is already indexed leaves them as they were, and no
    search touches the index of another collection. *)
Theorem search_results_frame (self self' : Engine) (w w' : World)
    (query system : str) (max_results : Z) (res : list RomMatch) :
  search self w query system max_results = Ok (res, self', w') →
  (∀ r, r ∈ res →
     ∃ m, m ∈ indexed (default [] (_file_index self' !! system)) ∧
          filename r = filename m ∧ full_path r = full_path m ∧
          source_type r = source_type m ∧ size r = size m ∧
          modified_time r = modified_time m ∧
          score r = _fuzzy_match_score query (filename m)) ∧
  (strip query ≠ [] → _ensure_index self w system = Ok (self', w')) ∧
  (is_Some (_file_index self !! system) → self' = self ∧ w' = w) ∧
  (∀ system', system' ≠ system →
     _file_index self' !! system' = _file_index self !! system').
Proof.
  intros Hs.
  apply search_Ok in Hs as [(? & -> & -> & ->)|(_ & Hens & ->)].
  { split_and!; [by intros ? ?%elem_of_nil|done..]. }
  split_and!.
  - intros r Hr%slice_to_elem_of. rewrite sort_reverse_perm in Hr.
    apply elem_of_collect in Hr as (m & Hm & _ & _ & ->). by exists m.
  - done.
  - intros [idx Hidx]. rewrite (ensure_index_indexed _ _ _ _ Hidx) in Hens.
    by simplify_eq.
  - by apply ensure_index_frame in Hens as (_ & _ & ?).
Qed.

(** C10 (amended).  For a query whose stripped text has at least three
    characters and whose lowercased text and normalized text both split
    into words of one character only, the pre-filter rejects every filename,
    and [search] returns the empty list whenever the collection can be
    indexed. *)
Theorem one_letter_words_rejected (query : str) :
  (3 ≤ length (strip query))%nat →
  Forall (λ word, (length word < 2)%nat) (split_ws (lower query)) →
  Forall (λ word, (length word < 2)%nat) (split_ws (_normalize_text query)) →
  (∀ filename, _contains_all_words query filename = false) ∧
  ∀ self w system max_results,
    search self w query system max_results
    = '(self', w') ← _ensure_index self w system; Ok ([], self', w').
Proof.
  intros Hlen Hraw Hnorm.
  assert (∀ filename, _contains_all_words query filename = false) as Hrej.
  { intros filename. apply contains_all_words_no_word; [done| |];
      apply long_words_none; by apply Forall_forall. }
  split; [done|]. intros self w system n. unfold search.
  destruct (strip query) eqn:Hq; [simpl in Hlen; lia|].
  destruct (_ensure_index self w system) as [[self' w']| |]; simpl; [|done..].
  rewrite collect_indexed.
  assert (omap (match_one (fuzzy_threshold self') query)
            (indexed (default [] (_file_index self' !! system))) = []) as ->.
  { induction (indexed _) as [|m ms IH]; [done|].
    simpl. unfold match_one at 1. by rewrite Hrej. }
  simpl. unfold slice_to. by rewrite !take_nil, Tauto.if_same.
Qed.
End Claims.

(** ** Closed examples *)

Section Examples.
#[local] Existing Instance basic_unicode.
#[local] Existing Instance substring_fuzz.
#[local] Existing Instance plain_digest.

(** C3 (where the code departs from the claim).  The file named [zip] has
    no dot, hence no extension, and is recognized: the whole name is the
    last segment of the split. *)
Theorem dotless_name_recognized :
  (DOT ∉ py "zip") ∧ _is_rom_file (py "zip") = true.
Proof.
  split; [|reflexivity].
  by apply (bool_decide_eq_false_1 (DOT ∈ py "zip")).
Qed.

Lemma save_then_load_misses_witness :
  _file_index mario_engine !! NES = Some mario_index ∧
  _load_cache fresh_engine (_save_cache mario_engine empty_world NES) NES
  = Ok (false, fresh_engine).
Proof.
  split; [reflexivity|].
  apply (save_then_load_misses mario_engine fresh_engine empty_world NES mario_index).
  - reflexivity.
  - apply (bool_decide_unpack (NoDup mario_index.*1)). vm_compute. exact I.
  - discriminate.
  - reflexivity.
Defined.

(** C2, as stated, fails: two translation records of equal score, and the
    smaller one is returned first. *)
Lemma larger_first_counterexample :
  search mario_engine empty_world (py "mario") NES DEFAULT_MAX_RESULTS
  = Ok ([mario_small; mario_large], mario_engine, empty_world) ∧
  (score mario_small == score mario_large)%Q ∧
  source_type mario_small = TRANSLATIONS ∧
  source_type mario_large = TRANSLATIONS ∧
  size mario_small < size mario_large.
Proof. split_and!; [by vm_compute|done..]. Qed.

Lemma search_size_tie_break_witness :
  search mario_engine empty_world (py "mario") NES DEFAULT_MAX_RESULTS
  = Ok ([mario_small; mario_large], mario_engine, empty_world) ∧
  (0 < 1)%nat.
Proof.
  assert (search mario_engine empty_world (py "mario") NES DEFAULT_MAX_RESULTS
          = Ok ([mario_small; mario_large], mario_engine, empty_world)) as Hs
    by (vm_compute; reflexivity).
  split; [exact Hs|].
  apply (search_size_tie_break _ _ _ _ _ _ _ _ 0%nat 1%nat mario_small mario_large Hs);
    [reflexivity|reflexivity|reflexivity|reflexivity|reflexivity].
Defined.

(** C4, as stated, fails: one of two words occurs, the pre-filter passes,
    and the quota rounded up asks for two. *)
Lemma quota_ceil_counterexample :
  (3 ≤ non_whitespace (py "chrono zelda"))%nat ∧
  _contains_all_words (py "chrono zelda") (py "chrono trigger.sfc") = true ∧
  ¬ prefilter_spec quota_ceil (py "chrono zelda") (py "chrono trigger.sfc").
Proof.
  split_and!; [vm_compute; lia|reflexivity|].
  unfold prefilter_spec. cbv zeta. rewrite !at_least_count.
  intros [Hle|Hle]; vm_compute in Hle; by apply Hle.
Qed.

Lemma prefilter_quota_floor_witness :
  _contains_all_words (py "chrono zelda") (py "chrono trigger.sfc") = true ↔
  prefilter_spec quota_floor (py "chrono zelda") (py "chrono trigger.sfc").
Proof.
  apply (prefilter_quota_floor (py "chrono zelda") (py "chrono trigger.sfc")).
  vm_compute. lia.
Defined.

(** C5, as stated, fails: the query [a b] has two characters that are not
    whitespace, and the pre-filter rejects. *)
Lemma short_query_counterexample :
  (non_whitespace (py "a b") < 3)%nat ∧
  _contains_all_words (py "a b") (py "a b.zip") = false.
Proof. split; [vm_compute; lia|reflexivity]. Qed.

Lemma short_query_bypass_witness :
  _contains_all_words (py "ab") (py "mario.zip") = true.
Proof.
  apply (short_query_bypass (py "ab") (py "mario.zip")). vm_compute. lia.
Defined.

(** C6, as stated, fails: with the limit 1 a record that passes the
    pre-filter and scores above the threshold is not returned. *)
Lemma limit_counterexample :
  search mario_engine empty_world (py "mario") NES 1
  = Ok ([mario_small], mario_engine, empty_world) ∧
  mario_large ∈ indexed mario_index ∧
  _contains_all_words (py "mario") (filename mario_large) = true ∧
  (fuzzy_threshold mario_engine
   <= _fuzzy_match_score (py "mario") (filename mario_large))%Q ∧
  rescored (py "mario") mario_large ∉ [mario_small].
Proof.
  split_and!; [by vm_compute|by left|reflexivity|by vm_compute|].
  intros Hin%list_elem_of_singleton. by apply (f_equal size) in Hin.
Qed.

Lemma search_threshold_witness :
  (rescored (py "mario") mario_large ∈ [mario_small; mario_large] →
   (DEFAULT_FUZZY_THRESHOLD
    <= _fuzzy_match_score (py "mario") (filename mario_large))%Q) ∧
  (strip (py "mario") ≠ [] →
   Z.of_nat (length (collect DEFAULT_FUZZY_THRESHOLD (py "mario")
                       (default [] (_file_index mario_engine !! NES))))
   ≤ DEFAULT_MAX_RESULTS →
   rescored (py "mario") mario_large ∈ [mario_small; mario_large] ↔
   (DEFAULT_FUZZY_THRESHOLD
    <= _fuzzy_match_score (py "mario") (filename mario_large))%Q).
Proof.
  apply (search_threshold mario_engine mario_engine empty_world empty_world
           (py "mario") NES DEFAULT_MAX_RESULTS [mario_small; mario_large]
           mario_large).
  - vm_compute. reflexivity.
  - change (mario_large ∈ [mario_large; mario_small]). left.
  - reflexivity.
Defined.

Lemma search_blank_query_witness :
  search mario_engine empty_world [32; 9; 32]%N NES DEFAULT_MAX_RESULTS
  = Ok ([], mario_engine, empty_world).
Proof.
  apply (search_blank_query mario_engine empty_world [32; 9; 32]%N NES).
  repeat constructor.
Defined.

Lemma load_cache_raises_witness :
  ∃ e, caught e = false ∧
       _load_cache fresh_engine array_world NES = Raise e ∧
       ∀ query max_results,
         strip query ≠ [] → _file_index fresh_engine !! NES = None →
         search fresh_engine array_world query NES max_results = Raise e.
Proof.
  apply (load_cache_raises fresh_engine array_world NES (Json (JList []))).
  - vm_compute. reflexivity.
  - right. exists (JList []). split; [reflexivity|discriminate].
Defined.

(** The same run, evaluated: the cache file [[]] and the query [mario]. *)
Lemma search_array_cache :
  _load_cache fresh_engine array_world NES = Raise AttributeError ∧
  search fresh_engine array_world (py "mario") NES DEFAULT_MAX_RESULTS
  = Raise AttributeError.
Proof. split; by vm_compute. Qed.

Lemma search_results_frame_witness :
  (∀ r, r ∈ [mario_small; mario_large] →
     ∃ m, m ∈ indexed (default [] (_file_index mario_engine !! NES)) ∧
          filename r = filename m ∧ full_path r = full_path m ∧
          source_type r = source_type m ∧ size r = size m ∧
          modified_time r = modified_time m ∧
          score r = _fuzzy_match_score (py "mario") (filename m)) ∧
  (strip (py "mario") ≠ [] →
   _ensure_index mario_engine empty_world NES = Ok (mario_engine, empty_world)) ∧
  (is_Some (_file_index mario_engine !! NES) →
   mario_engine = mario_engine ∧ empty_world = empty_world) ∧
  (∀ system', system' ≠ NES →
     _file_index mario_engine !! system' = _file_index mario_engine !! system').
Proof.
  apply (search_results_frame mario_engine mario_engine empty_world empty_world
           (py "mario") NES DEFAULT_MAX_RESULTS [mario_small; mario_large]).
  vm_compute. reflexivity.
Defined.

(** C10, as stated, fails: both words of the query have one character,
    their lower case has two, the pre-filter passes the file and [search]
    returns it. *)
Lemma one_letter_words_counterexample :
  (3 ≤ length (strip dotted_query))%nat ∧
  Forall (λ word, length word = 1%nat) (split_ws dotted_query) ∧
  _contains_all_words dotted_query (filename dotted_rom) = true ∧
  search dotted_engine empty_world dotted_query NES DEFAULT_MAX_RESULTS
  = Ok ([dotted_rom], dotted_engine, empty_world).
Proof.
  split_and!; [vm_compute; lia|by repeat constructor|reflexivity|by vm_compute].
Qed.

Lemma one_letter_words_rejected_witness :
  _contains_all_words (py "a b c") (py "a b c.zip") = false ∧
  search mario_engine empty_world (py "a b c") NES DEFAULT_MAX_RESULTS
  = Ok ([], mario_engine, empty_world).
Proof.
  destruct (one_letter_words_rejected (py "a b c")) as [Hpre Hsearch].
  - vm_compute. lia.
  - vm_compute. repeat constructor.
  - vm_compute. repeat constructor.
  - split; [apply Hpre|]. rewrite Hsearch. vm_compute. reflexivity.
Defined.
End Examples.

(** ** Further properties of the engine *)

(** The record of a cache file as [_load_cache] reads it: the five keys
    [_save_cache] writes and [score]. *)
Definition full_match_json (m : RomMatch) : json :=
  JDict [(py "filename", JStr (filename m));
         (py "full_path", JStr (full_path m));
         (py "source_type", JStr (source_type m));
         (py "score", JFloat (score m));
         (py "size", JInt (size m));
         (py "modified_time", JFloat (modified_time m))].

(** The score the ranking compares first: the bonus of a translation added. *)
Definition boosted (x : RomMatch) : Q :=
  (score x + (if is_translations x then 10 else 0))%Q.

(** [x] and [y] have equal sort keys. *)
Definition same_rank (x y : RomMatch) : bool :=
  negb (key_lt (sort_key x) (sort_key y)) && negb (key_lt (sort_key y) (sort_key x)).

Section ScanFacts.
Context {U : Unicode}.

(** The segments of a split: the last has no separator and ends the
    string, after a separator when it is not the only one. *)
Lemma split_on_segments (sep : N) (s : str) :
  ∃ segs e, split_on sep s = segs ++ [e] ∧ (sep ∉ e) ∧
            (segs = [] ∧ s = e ∨ segs ≠ [] ∧ ∃ stem, s = stem ++ sep :: e).
Proof.
  induction s as [|c s (segs & e & Hsplit & He & Hs)].
  { exists [], []. split_and!; [done|by intros ?%elem_of_nil|by left]. }
  simpl. rewrite Hsplit. destruct (N.eqb_spec c sep) as [->|Hc].
  - exists ([] :: segs), e. split_and!; [done|done|]. right. split; [done|].
    destruct Hs as [[_ ->]|[_ [stem ->]]]; [by exists []|by exists (sep :: stem)].
  - destruct Hs as [[-> ->]|[Hne [stem ->]]].
    + exists [], (c :: e). split_and!; [done| |by left].
      by intros [?|?]%elem_of_cons.
    + destruct segs as [|seg segs]; [done|].
      exists ((c :: seg) :: segs), e. split_and!; [done|done|].
      right. split; [done|]. by exists (c :: stem).
Qed.

Lemma split_on_last (sep : N) (s : str) :
  ∃ e, last (split_on sep s) = Some e ∧ (sep ∉ e) ∧
       (s = e ∨ ∃ stem, s = stem ++ sep :: e).
Proof.
  destruct (split_on_segments sep s) as (segs & e & -> & He & Hs).
  exists e. rewrite last_snoc. split_and!; [done|done|].
  destruct Hs as [[_ ?]|[_ ?]]; auto.
Qed.

Lemma first_occurrence {A} (x : A) (l1 l2 r1 r2 : list A) :
  x ∉ l1 → x ∉ l2 → l1 ++ x :: r1 = l2 ++ x :: r2 → l1 = l2.
Proof.
  revert l2. induction l1 as [|a l1 IH]; intros [|b l2] H1 H2 Heq;
    simplify_eq/=; try done.
  - by destruct H2; left.
  - by destruct H1; left.
  - f_equal. apply not_elem_of_cons in H1 as [_ H1], H2 as [_ H2]. eauto.
Qed.

Lemma last_segment_unique (sep : N) (s e e' : str) :
  sep ∉ e → sep ∉ e' →
  (s = e ∨ ∃ stem, s = stem ++ sep :: e) →
  (s = e' ∨ ∃ stem, s = stem ++ sep :: e') →
  e = e'.
Proof.
  intros He He' [->|[stem ->]] [Hs|[stem' Hs]].
  - done.
  - destruct He. rewrite Hs. set_unfold. right. by left.
  - destruct He'. rewrite <- Hs. set_unfold. right. by left.
  - apply (f_equal reverse) in Hs.
    rewrite !reverse_app, !reverse_cons, <- !app_assoc in Hs. simpl in Hs.
    apply first_occurrence in Hs; [|by rewrite elem_of_reverse..].
    by apply (inj reverse).
Qed.

Lemma ROM_EXTENSIONS_no_dot (ext : str) : ext ∈ ROM_EXTENSIONS → DOT ∉ ext.
Proof.
  revert ext. apply Forall_forall.
  by apply (bool_decide_unpack (Forall (λ ext, DOT ∉ ext) ROM_EXTENSIONS)).
Qed.

(** X1.  A file name is recognized exactly when its lowercased form is an
    allowed extension, or ends with a dot followed by one. *)
Theorem is_rom_file_suffix (filename : str) :
  _is_rom_file filename = true ↔
  ∃ ext, ext ∈ ROM_EXTENSIONS ∧
         (lower filename = ext ∨ ∃ stem, lower filename = stem ++ DOT :: ext).
Proof.
  unfold _is_rom_file.
  destruct (split_on_last DOT (lower filename)) as (e & -> & He & Hs). simpl.
  rewrite bool_decide_eq_true. split; [by exists e|].
  intros (ext & Hext & Hs').
  by rewrite (last_segment_unique DOT _ e ext He (ROM_EXTENSIONS_no_dot _ Hext) Hs Hs').
Qed.

Lemma scan_entry_Some (tag : str) (e : entry) (r : RomMatch) :
  scan_entry tag e = Some r ↔
  ∃ mtime sz,
    e_is_file e = true ∧ _is_rom_file (e_name e) = true ∧
    e_stat e = Some (mtime, sz) ∧
    r = {| filename := e_name e; full_path := e_path e; source_type := tag;
           score := 100; size := sz; modified_time := mtime |}.
Proof.
  unfold scan_entry. split.
  - destruct (e_is_file e), (_is_rom_file (e_name e)),
      (e_stat e) as [[mtime sz]|]; intros; simplify_eq/=.
    by exists mtime, sz.
  - intros (mtime & sz & -> & -> & -> & ->). done.
Qed.


End ScanFacts.

Section SearchProperties.
Context {U : Unicode} {F : Fuzz} {D : Digest}.
#[local] Arguments key_lt : simpl never.
#[local] Arguments sort_key : simpl never.

Lemma search_nonblank (self : Engine) (w : World) (query system : str)
    (max_results : Z) :
  strip query ≠ [] →
  search self w query system max_results
  = '(self', w') ← _ensure_index self w system;
    Ok (slice_to max_results
          (sort_reverse
             (collect (fuzzy_threshold self') query
                (default [] (_file_index self' !! system)))), self', w').
Proof.
  intros Hq. unfold search. destruct (strip query); [done|].
  by destruct (_ensure_index self w system) as [[]| |].
Qed.

Lemma filter_take_prefix {A} (f : A → bool) (k : nat) (l : list A) :
  List.filter f (take k l) `prefix_of` List.filter f l.
Proof.
  rewrite <- (take_drop k l) at 2. rewrite List.filter_app. by apply prefix_app_r.
Qed.

Lemma same_rank_not_below (x y z : RomMatch) :
  same_rank x y = true → same_rank x z = true → not_below y z.
Proof.
  unfold same_rank. rewrite !andb_true_iff, !negb_true_iff.
  intros [Hxy Hyx] [Hxz Hzx]. by apply (not_below_trans y x z).
Qed.

(** Inserting a record leaves the records of every rank in their order,
    the new one before those of its own rank. *)
Lemma filter_insert_desc (x y : RomMatch) (l : list RomMatch) :
  List.filter (same_rank x) (insert_desc y l)
  = List.filter (same_rank x) (y :: l).
Proof.
  induction l as [|z l IH]; [done|].
  cbn [insert_desc]. destruct (key_lt (sort_key y) (sort_key z)) eqn:Hyz; [|done].
  cbn [List.filter] in *. rewrite IH.
  destruct (same_rank x y) eqn:Hy, (same_rank x z) eqn:Hz; try done.
  pose proof (same_rank_not_below _ _ _ Hy Hz) as Hnb.
  unfold not_below in Hnb. congruence.
Qed.

Lemma filter_sort_reverse (x : RomMatch) (l : list RomMatch) :
  List.filter (same_rank x) (sort_reverse l) = List.filter (same_rank x) l.
Proof.
  induction l as [|y l IH]; [done|].
  simpl. rewrite filter_insert_desc. cbn [List.filter]. by rewrite IH.
Qed.

(** [_save_cache] writes the cache file of the collection and nothing else. *)
Lemma save_cache_frame (self : Engine) (w : World) (system : str) :
  official (_save_cache self w system) = official w ∧
  translations (_save_cache self w system) = translations w ∧
  clock (_save_cache self w system) = clock w ∧
  cache_writable (_save_cache self w system) = cache_writable w ∧
  ∀ system', system' ≠ system →
    cache_files (_save_cache self w system) !! system' = cache_files w !! system'.
Proof.
  unfold _save_cache. destruct (cache_writable w) eqn:Hw; simpl;
    split_and!; try done.
  intros. by rewrite lookup_insert_ne.
Qed.

(** X4.  Searching a collection that has no directory under either root
    and no cache file is no error: the result is empty, the collection is
    indexed as empty and [_save_cache] is run for it. *)
Theorem search_unknown_collection (self : Engine) (w : World)
    (query system : str) (max_results : Z) :
  strip query ≠ [] →
  _file_index self !! system = None → cache_files w !! system = None →
  official w !! system = None → translations w !! system = None →
  search self w query system max_results
  = Ok ([], set_index system [] self,
        _save_cache (set_index system [] self) w system).
Proof.
  intros Hq Hidx Hfile Hoff Htr. rewrite search_nonblank by done.
  unfold _ensure_index, _load_cache, _build_index.
  rewrite Hidx, Hfile, Hoff, Htr. simpl. rewrite lookup_insert_eq. simpl.
  unfold slice_to. by rewrite !take_nil, Tauto.if_same.
Qed.

(** X5.  A search that returned, run again on the engine and file system
    it left, returns the same results and leaves both as they are. *)
Theorem search_idempotent (self self' : Engine) (w w' : World)
    (query system : str) (max_results : Z) (res : list RomMatch) :
  search self w query system max_results = Ok (res, self', w') →
  search self' w' query system max_results = Ok (res, self', w').
Proof.
  intros Hs. apply search_Ok in Hs as [(Hq & -> & -> & ->)|(Hq & Hens & ->)].
  { unfold search. by rewrite Hq. }
  apply ensure_index_frame in Hens as (Hthr & [idx Hidx] & _).
  rewrite search_nonblank by done.
  rewrite (ensure_index_indexed _ _ _ _ Hidx). simpl. by rewrite Hthr.
Qed.

(** X6.  The number of results of a search on a query that is not blank:
    with a limit of zero or more, the smaller of the limit and the number
    of records kept; with a negative limit, the number kept less its
    absolute value, and none when that is negative. *)
Theorem search_result_count (self self' : Engine) (w w' : World)
    (query system : str) (max_results : Z) (res : list RomMatch) :
  search self w query system max_results = Ok (res, self', w') →
  strip query ≠ [] →
  length res
  = if 0 <=? max_results
    then (Z.to_nat max_results `min`
          length (collect (fuzzy_threshold self) query
                    (default [] (_file_index self' !! system))))%nat
    else (length (collect (fuzzy_threshold self) query
                    (default [] (_file_index self' !! system)))
          - Z.to_nat (- max_results))%nat.
Proof.
  intros Hs Hq. apply search_Ok in Hs as [(? & _)|(_ & _ & ->)]; [done|].
  unfold slice_to.
  destruct (0 <=? max_results); rewrite length_take, sort_reverse_perm; lia.
Qed.


(** X8.  In the results a translation stands before every record of
    another tag that scores at most 10 points more. *)
Theorem search_translation_first (self self' : Engine) (w w' : World)
    (query system : str) (max_results : Z) (res : list RomMatch)
    (i j : nat) (a b : RomMatch) :
  search self w query system max_results = Ok (res, self', w') →
  res !! i = Some a → res !! j = Some b →
  source_type a = TRANSLATIONS → source_type b ≠ TRANSLATIONS →
  (score b <= score a + 10)%Q →
  (i < j)%nat.
Proof.
  intros Hs Hi Hj Ha Hb Hle.
  apply search_Ok in Hs as [(_ & -> & _)|(_ & _ & ->)]; [done|].
  apply slice_to_lookup in Hi, Hj.
  destruct (Nat.lt_trichotomy i j) as [?|[->|Hji]]; [done| |].
  - simplify_eq.
  - pose proof (sorted_lookup _ _ _ _ _ (sort_reverse_sorted _) Hj Hi Hji) as Hba.
    unfold not_below, sort_key, is_translations in Hba.
    rewrite (bool_decide_eq_true_2 _ Ha), (bool_decide_eq_false_2 _ Hb) in Hba.
    apply key_lt_false in Hba.
    destruct Hba as [?|[_ [[? _]|[? _]]]]; [lra|done|done].
Qed.



End SearchProperties.

(** The file system with [extra] entries at the end of the traversal of
    [base_dir / "Official" / system], the [stat] of the directory itself
    as it was. *)
Definition add_official_entries (system : str) (extra : list entry) (w : World) : World :=
  {| official :=
       alter (λ d, {| d_stat := d_stat d; d_rglob := d_rglob d ++ extra |})
             system (official w);
     translations := translations w; cache_files := cache_files w;
     cache_writable := cache_writable w; clock := clock w |}.

(** The six values [_load_cache] reads from [full_match_json m]. *)
Definition raw_match (m : RomMatch) : json * json * json * json * json * json :=
  (JStr (filename m), JStr (full_path m), JStr (source_type m),
   JFloat (score m), JInt (size m), JFloat (modified_time m)).

Section CacheProperties.
Context {U : Unicode} {F : Fuzz} {D : Digest}.

Lemma traverse_read_full (rs : list RomMatch) :
  traverse read_match (full_match_json <$> rs) = Ok (raw_match <$> rs).
Proof.
  induction rs as [|m rs IH]; [done|].
  rewrite !fmap_cons. cbn [traverse].
  replace (read_match (full_match_json m)) with (Ok (raw_match m)) by reflexivity.
  simpl. by rewrite IH.
Qed.

Lemma read_matches_full (idx : index) acc :
  read_matches ((λ kv, (kv.1, JList (full_match_json <$> kv.2))) <$> idx) acc
  = Ok (foldl (λ d kv, dict_set kv.1 kv.2 d) acc
          ((λ kv : str * list RomMatch, (kv.1, raw_match <$> kv.2)) <$> idx)).
Proof.
  revert acc. induction idx as [|[k rs] idx IH]; intros acc; [done|].
  rewrite !fmap_cons. cbn [read_matches py_iter fst snd]. simpl.
  rewrite traverse_read_full. simpl. apply IH.
Qed.

Lemma typed_index_raw (idx : index) :
  typed_index ((λ kv : str * list RomMatch, (kv.1, raw_match <$> kv.2)) <$> idx)
  = Ok idx.
Proof.
  unfold typed_index.
  assert (∀ rs, mapM typed_match (raw_match <$> rs) = Some rs) as Hrs.
  { intros rs. apply mapM_Some. induction rs as [|[] rs IH]; by constructor. }
  assert (mapM (λ kv : str * list (json * json * json * json * json * json),
                  rs ← mapM typed_match kv.2; Some (kv.1, rs))
            ((λ kv : str * list RomMatch, (kv.1, raw_match <$> kv.2)) <$> idx)
          = Some idx) as ->; [|done].
  apply mapM_Some. induction idx as [|[k rs] idx IH]; constructor; [|done].
  simpl. by rewrite Hrs.
Qed.

(** The [try] block on a file of the expected version and fingerprints
    whose records have the six keys. *)
Lemma load_body_full (self : Engine) (w : World) (system : str)
    (d : list (str * json)) (idx : index) :
  dict_get (py "version") d = Some (JStr CACHE_VERSION) →
  dict_get (py "official_hash") d
    = Some (JStr (_calculate_dir_hash (official w !! system))) →
  dict_get (py "translations_hash") d
    = Some (JStr (_calculate_dir_hash (translations w !! system))) →
  dict_get (py "matches") d
    = Some (JDict ((λ kv, (kv.1, JList (full_match_json <$> kv.2))) <$> idx)) →
  NoDup idx.*1 →
  load_body self w system (Json (JDict d)) = Ok (true, set_index system idx self).
Proof.
  intros Hv Ho Ht Hm Hdup. unfold load_body. simpl.
  rewrite Hv, Ho, Ht, Hm. simpl.
  rewrite !bool_decide_eq_true_2 by done. simpl.
  rewrite read_matches_full, foldl_dict_set;
    [|simpl; by rewrite <- list_fmap_compose].
  simpl. by rewrite typed_index_raw.
Qed.



(** X14.  A cache file of the expected version and the current fingerprints
    whose records carry the five keys [_save_cache] writes and [score] is a
    hit: [True], and the index of the collection is the index in the file,
    record for record. *)
Theorem load_cache_well_formed (self : Engine) (w : World) (system : str)
    (d : list (str * json)) (idx : index) :
  cache_files w !! system = Some (Json (JDict d)) →
  dict_get (py "version") d = Some (JStr CACHE_VERSION) →
  dict_get (py "official_hash") d
    = Some (JStr (_calculate_dir_hash (official w !! system))) →
  dict_get (py "translations_hash") d
    = Some (JStr (_calculate_dir_hash (translations w !! system))) →
  dict_get (py "matches") d
    = Some (JDict ((λ kv, (kv.1, JList (full_match_json <$> kv.2))) <$> idx)) →
  NoDup idx.*1 →
  _load_cache self w system = Ok (true, set_index system idx self).
Proof.
  intros Hfile Hv Ho Ht Hm Hdup. unfold _load_cache. rewrite Hfile.
  by rewrite (load_body_full self w system d idx).
Qed.

(** X15.  The round trip holds for an index without records: what
    [_save_cache] writes for it is loaded back as the same index. *)
Theorem save_then_load_empty (self self0 : Engine) (w : World)
    (system : str) (idx : index) :
  _file_index self !! system = Some idx →
  NoDup idx.*1 → indexed idx = [] → cache_writable w = true →
  _load_cache self0 (_save_cache self w system) system
  = Ok (true, set_index system idx self0).
Proof.
  intros Hidx Hdup Hempty Hw. unfold _save_cache. rewrite Hidx, Hw. simpl.
  unfold _load_cache, set_cache_file. simpl. rewrite lookup_insert_eq.
  rewrite (load_body_full self0 _ system _ idx); try done. simpl. do 2 f_equal.
  rewrite dict_of_NoDup by (by rewrite <- list_fmap_compose).
  clear Hidx Hdup. induction idx as [|[k rs] idx IH]; [done|].
  unfold indexed in Hempty. simpl in Hempty.
  apply app_eq_nil in Hempty as [-> Hempty]. rewrite !fmap_cons. f_equal.
  by apply IH.
Qed.
(** X23.  A search of a collection that is not indexed, with a cache file
    of the expected version and the current fingerprints whose records
    carry the six keys, answers from the records of the file: the
    directories are not scanned and nothing is written. *)
Theorem search_uses_valid_cache (self : Engine) (w : World)
    (query system : str) (max_results : Z)
    (d : list (str * json)) (idx : index) :
  strip query ≠ [] → _file_index self !! system = None →
  cache_files w !! system = Some (Json (JDict d)) →
  dict_get (py "version") d = Some (JStr CACHE_VERSION) →
  dict_get (py "official_hash") d
    = Some (JStr (_calculate_dir_hash (official w !! system))) →
  dict_get (py "translations_hash") d
    = Some (JStr (_calculate_dir_hash (translations w !! system))) →
  dict_get (py "matches") d
    = Some (JDict ((λ kv, (kv.1, JList (full_match_json <$> kv.2))) <$> idx)) →
  NoDup idx.*1 →
  search self w query system max_results
  = Ok (slice_to max_results
          (sort_reverse (collect (fuzzy_threshold self) query idx)),
        set_index system idx self, w).
Proof.
  intros Hq Hidx Hfile Hv Ho Ht Hm Hdup.
  unfold search, _ensure_index, _load_cache. destruct (strip query); [done|].
  rewrite Hidx, Hfile, (load_body_full self w system d idx) by done. simpl.
  by rewrite lookup_insert_eq.
Qed.
End CacheProperties.

Section PrefilterProperties.
Context {U : Unicode} {F : Fuzz} {D : Digest}.

Lemma required_hits_le (words : list str) :
  words ≠ [] → required_hits words ≤ Z.of_nat (length words).
Proof.
  intros Hne. unfold required_hits, py_int. simpl.
  assert (0 < Z.of_nat (length words)) by (destruct words; [done|simpl; lia]).
  apply Z.max_lub; [lia|].
  rewrite Z.quot_div_nonneg by lia. apply Z.div_le_upper_bound; lia.
Qed.

Lemma count_hits_all (words : list str) (text : str) :
  Forall (λ word, occurs_in word text) words →
  count_hits words text = length words.
Proof.
  unfold count_hits. induction 1 as [|word words Hw _ IH]; [done|].
  apply contains_spec in Hw. simpl. rewrite Hw. simpl. by rewrite IH.
Qed.

Lemma count_hits_none (words : list str) (text : str) :
  Forall (λ word, ¬ occurs_in word text) words → count_hits words text = 0%nat.
Proof.
  unfold count_hits. induction 1 as [|word words Hw _ IH]; [done|].
  simpl. destruct (contains word text) eqn:Hc; [|done].
  by apply contains_spec in Hc.
Qed.

Lemma required_hits_pos (words : list str) : 1 ≤ required_hits words.
Proof. unfold required_hits. lia. Qed.

(** X16.  A file name whose lowercased form contains every word of two
    characters or more of the lowercased query, when there is such a word,
    passes the pre-filter. *)
Theorem prefilter_every_word (query filename : str) :
  long_words (split_ws (lower query)) ≠ [] →
  Forall (λ word, occurs_in word (lower filename))
         (long_words (split_ws (lower query))) →
  _contains_all_words query filename = true.
Proof.
  intros Hne Hall. unfold _contains_all_words.
  destruct (length (strip query) <? 3)%nat; [done|]. cbv zeta.
  rewrite (count_hits_all _ _ Hall).
  pose proof (required_hits_le _ Hne).
  by destruct (Z.leb_spec (required_hits (long_words (split_ws (lower query))))
                 (Z.of_nat (length (long_words (split_ws (lower query)))))); [|lia].
Qed.

(** X17.  For a query of three characters or more once stripped, a file
    name that contains none of the query's words, neither lowercased nor
    normalized, is rejected by the pre-filter, and no record of that name
    is among the results of a search. *)
Theorem prefilter_no_word (self self' : Engine) (w w' : World)
    (query system : str) (max_results : Z) (res : list RomMatch) (name : str) :
  (3 ≤ length (strip query))%nat →
  Forall (λ word, ¬ occurs_in word (lower name))
         (long_words (split_ws (lower query))) →
  Forall (λ word, ¬ occurs_in word (_normalize_text name))
         (long_words (split_ws (_normalize_text query))) →
  search self w query system max_results = Ok (res, self', w') →
  _contains_all_words query name = false ∧
  ∀ r, r ∈ res → filename r ≠ name.
Proof.
  intros Hlen Hraw Hnorm Hs.
  assert (_contains_all_words query name = false) as Hrej.
  { unfold _contains_all_words.
    destruct (Nat.ltb_spec (length (strip query)) 3) as [?|_]; [lia|]. cbv zeta.
    rewrite (count_hits_none _ _ Hraw), (count_hits_none _ _ Hnorm).
    pose proof (required_hits_pos (long_words (split_ws (lower query)))).
    pose proof (required_hits_pos (long_words (split_ws (_normalize_text query)))).
    destruct (Z.leb_spec (required_hits (long_words (split_ws (lower query))))
                (Z.of_nat 0)); [lia|].
    apply Z.leb_gt. lia. }
  split; [done|]. intros r Hr Hname.
  apply search_Ok in Hs as [(_ & -> & _)|(_ & _ & ->)];
    [by apply elem_of_nil in Hr|].
  apply slice_to_elem_of in Hr. rewrite sort_reverse_perm in Hr.
  apply elem_of_collect in Hr as (m & _ & Hpre & _ & ->). simpl in Hname.
  congruence.
Qed.
End PrefilterProperties.

Section SystemsProperties.

Lemma str_lt_irrefl (a : str) : str_lt a a = false.
Proof.
  induction a as [|x a IH]; [done|].
  simpl. by rewrite N.ltb_irrefl, N.eqb_refl, IH.
Qed.

Lemma str_lt_trans (a b c : str) :
  str_lt a b = true → str_lt b c = true → str_lt a c = true.
Proof.
  revert b c. induction a as [|x a IH]; intros [|y b] [|z c]; simpl; try done.
  rewrite !orb_true_iff, !andb_true_iff, !N.ltb_lt, !N.eqb_eq.
  intros [?|[-> ?]] [?|[-> ?]]; [left; lia|by left|by left|right; eauto].
Qed.

Lemma str_lt_connex (a b : str) :
  str_lt a b = false → str_lt b a = false → a = b.
Proof.
  revert b. induction a as [|x a IH]; intros [|y b]; simpl; try done.
  rewrite !orb_false_iff, !andb_false_iff, !N.ltb_ge, !N.eqb_neq.
  intros [? Hab] [? Hba]. assert (x = y) as -> by lia.
  f_equal. apply IH; [by destruct Hab|by destruct Hba].
Qed.

#[local] Instance str_le_total : Total str_le.
Proof.
  intros a b. unfold str_le.
  destruct (str_lt b a) eqn:Hba; [|by left]. right.
  destruct (str_lt a b) eqn:Hab; [|done].
  by rewrite <- (str_lt_irrefl a), <- (str_lt_trans _ _ _ Hab Hba).
Qed.

#[local] Instance str_le_trans : Transitive str_le.
Proof.
  intros a b c. unfold str_le. intros Hba Hcb.
  destruct (str_lt c a) eqn:Hca; [|done].
  destruct (str_lt a b) eqn:Hab.
  - by rewrite <- Hcb, <- (str_lt_trans _ _ _ Hca Hab).
  - rewrite (str_lt_connex a b) in Hca by done. congruence.
Qed.

Lemma sorted_strict (l : list str) :
  StronglySorted str_le l → NoDup l →
  StronglySorted (λ a b, str_lt a b = true) l.
Proof.
  induction 1 as [|a l _ IH Ha]; intros Hdup; [constructor|].
  apply NoDup_cons in Hdup as [Hin Hdup]. constructor; [by apply IH|].
  rewrite Forall_forall in Ha |- *. intros b Hb.
  destruct (str_lt a b) eqn:Hab; [done|].
  destruct Hin. by rewrite (str_lt_connex a b Hab (Ha b Hb)).
Qed.

Lemma elem_of_dir_names (root : option (list (str * bool))) (name : str) :
  name ∈ dir_names root ↔ (name, true) ∈ default [] root.
Proof.
  destruct root as [items|]; simpl; [|by split; intros ?%elem_of_nil].
  rewrite list_elem_of_fmap. split.
  - intros ([name' []] & -> & [? ?]%list_elem_of_In%List.filter_In); simplify_eq/=.
    by apply list_elem_of_In.
  - intros Hin. exists (name, true). split; [done|].
    apply list_elem_of_In, List.filter_In. by split; [apply list_elem_of_In|].
Qed.

(** X18.  [get_systems] returns the names that are a directory under
    [Official] or under [Translations], each once, in strictly increasing
    order; a root that does not exist gives none. *)
Theorem get_systems_sorted (r : Roots) :
  StronglySorted (λ a b, str_lt a b = true) (get_systems r) ∧
  ∀ name, name ∈ get_systems r ↔
          (name, true) ∈ default [] (official_root r) ∨
          (name, true) ∈ default [] (translations_root r).
Proof.
  unfold get_systems. split.
  - apply sorted_strict; [apply StronglySorted_merge_sort; apply _|].
    rewrite merge_sort_Permutation. apply NoDup_elements.
  - intros name.
    rewrite merge_sort_Permutation, elem_of_elements, elem_of_list_to_set,
      elem_of_app, !elem_of_dir_names. done.
Qed.
End SystemsProperties.

Section ClearProperties.
Context {U : Unicode} {F : Fuzz} {D : Digest}.

Lemma unlink_each_all (u : Unlinking) (systems : list str) (w : World) :
  NoDup systems →
  (∀ s, s ∈ systems → is_Some (cache_files w !! s) ∧ unlink_ok u s = true) →
  ∃ w', unlink_each u systems w = (true, w') ∧
        official w' = official w ∧ translations w' = translations w ∧
        ∀ s, cache_files w' !! s
             = if decide (s ∈ systems) then None else cache_files w !! s.
Proof.
  revert w. induction systems as [|x systems IH]; intros w Hdup Hall.
  { exists w. by split_and!. }
  apply NoDup_cons in Hdup as [Hx Hdup].
  destruct (Hall x) as [[c Hc] Hok]; [left|].
  destruct (IH (delete_cache_file x w) Hdup) as (w' & Hw' & Ho & Ht & Hfiles).
  { intros s Hs. destruct (Hall s) as [? ?]; [by right|]. split; [|done].
    simpl. rewrite lookup_delete_ne; [done|]. by intros ->. }
  exists w'. simpl. unfold unlink. rewrite Hc, Hok. split_and!; [done..|].
  intros s. rewrite Hfiles. simpl.
  destruct (decide (s = x)) as [->|Hne].
  - rewrite (decide_True (P := x ∈ x :: systems)) by left.
    rewrite decide_False by done. apply lookup_delete_eq.
  - rewrite lookup_delete_ne by done.
    destruct (decide (s ∈ systems)) as [Hs|Hs].
    + by rewrite decide_True by by right.
    + rewrite decide_False; [done|]. by intros [?|?]%elem_of_cons.
Qed.


(** X20.  After [clear_cache] of a named collection has returned, a search
    of that collection scans the directories again: the index it uses is
    the one [_build_index] makes of the file system. *)
Theorem clear_cache_then_search (u : Unlinking) (self self1 self2 : Engine)
    (w w1 w2 : World) (query system : str) (max_results : Z)
    (res : list RomMatch) :
  system ≠ [] → strip query ≠ [] →
  clear_cache u self w (Some system) = Cleared self1 w1 →
  search self1 w1 query system max_results = Ok (res, self2, w2) →
  _file_index self2 !! system = Some (_build_index w system).
Proof.
  intros Hne Hq Hclear Hs. destruct system as [|c name]; [done|].
  assert (_file_index self1 !! (c :: name) = None ∧
          cache_files w1 !! (c :: name) = None ∧
          official w1 = official w ∧ translations w1 = translations w)
    as (Hidx & Hfile & Ho & Ht).
  { unfold clear_cache, unlink in Hclear.
    destruct (cache_files w !! (c :: name)) eqn:Hfile.
    - destruct (unlink_ok u (c :: name)); simplify_eq/=.
      by rewrite !lookup_delete_eq.
    - simplify_eq/=. by rewrite lookup_delete_eq. }
  rewrite search_nonblank in Hs by done.
  unfold _ensure_index, _load_cache in Hs. rewrite Hidx, Hfile in Hs.
  simpl in Hs. simplify_eq. simpl. rewrite lookup_insert_eq.
  unfold _build_index. by rewrite Ho, Ht.
Qed.

(** X21.  [clear_cache] with no collection, or with the empty name, when
    the glob lists the cache files there are, each once, and every
    [unlink] succeeds: no cache file and no index is left, and the
    directories are untouched. *)
Theorem clear_cache_all (u : Unlinking) (self : Engine) (w : World)
    (system : option str) :
  system = None ∨ system = Some [] →
  NoDup (globbed u) →
  (∀ s, s ∈ globbed u ↔ is_Some (cache_files w !! s)) →
  (∀ s, s ∈ globbed u → unlink_ok u s = true) →
  ∃ self' w',
    clear_cache u self w system = Cleared self' w' ∧
    _file_index self' = ∅ ∧ cache_files w' = ∅ ∧
    official w' = official w ∧ translations w' = translations w ∧
    fuzzy_threshold self' = fuzzy_threshold self.
Proof.
  intros Hsys Hdup Hglob Hok.
  destruct (unlink_each_all u (globbed u) w Hdup) as (w' & Hw' & Ho & Ht & Hfiles).
  { intros s Hs. split; [by apply Hglob|by apply Hok]. }
  eexists _, w'. split.
  { destruct Hsys as [->| ->]; simpl; by rewrite Hw'. }
  split_and!; try done.
  apply map_eq. intros s. rewrite Hfiles, lookup_empty.
  destruct (decide (s ∈ globbed u)) as [|Hs]; [done|].
  apply eq_None_not_Some. by rewrite <- Hglob.
Qed.

Lemma ensure_index_new (self self' : Engine) (w w' : World) (system : str) :
  _ensure_index self w system = Ok (self', w') →
  _file_index self !! system = None →
  ∃ idx, _file_index self' = <[system := idx]> (_file_index self).
Proof.
  unfold _ensure_index. intros Hens Hidx. rewrite Hidx in Hens.
  apply bind_Ok in Hens as ([[] self1] & Hload & Hens); simplify_eq/=.
  - apply load_cache_hit in Hload as (? & idx & _ & _ & _ & _ & ->). by exists idx.
  - apply load_cache_miss in Hload as ->. by eexists.
Qed.

Lemma sum_lengths_indexed (idx : index) :
  sum_list_with (λ kv : str * list RomMatch, length kv.2) idx
  = length (indexed idx).
Proof.
  unfold indexed. induction idx as [|[k rs] idx IH]; [done|].
  csimpl. rewrite length_app. by rewrite IH.
Qed.

(** X22.  After a search that had to index its collection [get_stats]
    counts one collection more, and as many files more as the index of the
    collection holds. *)
Theorem get_stats_after_search (self self' : Engine) (w w' : World)
    (query system : str) (max_results : Z) (res : list RomMatch)
    (cache_dir : str) (max_workers : Z) :
  search self w query system max_results = Ok (res, self', w') →
  strip query ≠ [] → _file_index self !! system = None →
  dict_get (py "systems_indexed") (get_stats cache_dir max_workers self')
  = Some (JInt (Z.of_nat (base.size (_file_index self)) + 1)) ∧
  dict_get (py "total_files") (get_stats cache_dir max_workers self')
  = Some (JInt (Z.of_nat (total_files self)
                + Z.of_nat (length (indexed (default [] (_file_index self' !! system)))))).
Proof.
  intros Hs Hq Hidx.
  apply search_Ok in Hs as [(? & _)|(_ & Hens & _)]; [done|].
  apply ensure_index_new in Hens as [idx Hself']; [|done].
  unfold get_stats. simpl. unfold total_files. rewrite Hself'.
  rewrite lookup_insert_eq, map_size_insert_None by done.
  rewrite map_to_list_insert by done. simpl.
  rewrite sum_lengths_indexed. split; do 2 f_equal; lia.
Qed.
End ClearProperties.

(** ** Closed examples of the further properties *)

(** A collection with an official and a translated release of one game. *)
Definition SNES : str := Eval vm_compute in py "SNES".

Definition chrono_usa : RomMatch :=
  {| filename := py "Chrono Trigger (USA).sfc";
     full_path := py "/roms/Official/SNES/Chrono Trigger (USA).sfc";
     source_type := OFFICIAL; score := 100; size := 4194304; modified_time := 0 |}.

Definition chrono_french : RomMatch :=
  {| filename := py "Chrono Trigger (French).sfc";
     full_path := py "/roms/Translations/SNES/Chrono Trigger (French).sfc";
     source_type := TRANSLATIONS; score := 100; size := 4194304; modified_time := 0 |}.

Definition chrono_engine : Engine :=
  {| fuzzy_threshold := DEFAULT_FUZZY_THRESHOLD;
     _file_index :=
       {[ SNES := [(OFFICIAL, [chrono_usa]); (TRANSLATIONS, [chrono_french])] ]} |}.

(** An engine that has indexed a collection without files. *)
Definition empty_index_engine : Engine :=
  {| fuzzy_threshold := DEFAULT_FUZZY_THRESHOLD;
     _file_index := {[ NES := [(OFFICIAL, [])] ]} |}.

(** A cache file that is not JSON, and one in the format [_load_cache]
    reads, for directories that do not exist. *)
Definition garbled_world : World :=
  {| official := ∅; translations := ∅; cache_files := {[ NES := NotJson ]};
     cache_writable := true; clock := 0 |}.

Definition mario_cache : list (str * json) :=
  [(py "version", JStr CACHE_VERSION);
   (py "timestamp", JFloat 0);
   (py "official_hash", JStr []);
   (py "translations_hash", JStr []);
   (py "matches",
    JDict ((λ kv : str * list RomMatch,
              (kv.1, JList (full_match_json <$> kv.2))) <$> mario_index))].

Definition cached_world : World :=
  {| official := ∅; translations := ∅;
     cache_files := {[ NES := Json (JDict mario_cache) ]};
     cache_writable := true; clock := 0 |}.

(** An official directory of 100 files. *)
Definition mario_entry : entry :=
  {| e_name := py "mario.zip"; e_path := py "/roms/Official/NES/mario.zip";
     e_is_file := true; e_stat := Some (0%Q, 10) |}.

Definition full_directory : directory :=
  {| d_stat := Some (0%Q, 4096); d_rglob := replicate 100 mario_entry |}.

Definition full_world : World :=
  {| official := {[ NES := full_directory ]}; translations := ∅;
     cache_files := ∅; cache_writable := true; clock := 0 |}.

(** Every [unlink] succeeds, and the glob lists the cache file of [NES]. *)
Definition unlinking_nes : Unlinking :=
  {| unlink_ok := λ _, true; globbed := [NES] |}.

Section FurtherExamples.
#[local] Existing Instance basic_unicode.
#[local] Existing Instance substring_fuzz.
#[local] Existing Instance plain_digest.

Lemma chrono_search :
  search chrono_engine empty_world (py "chrono trigger") SNES DEFAULT_MAX_RESULTS
  = Ok ([chrono_french; chrono_usa], chrono_engine, empty_world).
Proof. vm_compute. reflexivity. Defined.

Lemma mario_search :
  search mario_engine empty_world (py "mario") NES DEFAULT_MAX_RESULTS
  = Ok ([mario_small; mario_large], mario_engine, empty_world).
Proof. vm_compute. reflexivity. Defined.

Lemma search_unknown_collection_witness :
  search fresh_engine empty_world (py "mario") NES DEFAULT_MAX_RESULTS
  = Ok ([], set_index NES [] fresh_engine,
        _save_cache (set_index NES [] fresh_engine) empty_world NES).
Proof.
  apply (search_unknown_collection fresh_engine empty_world (py "mario") NES);
    by vm_compute.
Defined.

Lemma search_idempotent_witness :
  search chrono_engine empty_world (py "chrono trigger") SNES DEFAULT_MAX_RESULTS
  = Ok ([chrono_french; chrono_usa], chrono_engine, empty_world).
Proof. apply (search_idempotent _ _ _ _ _ _ _ _ chrono_search). Defined.

Lemma search_result_count_witness :
  length [chrono_french; chrono_usa]
  = if 0 <=? DEFAULT_MAX_RESULTS
    then (Z.to_nat DEFAULT_MAX_RESULTS `min`
          length (collect (fuzzy_threshold chrono_engine) (py "chrono trigger")
                    (default [] (_file_index chrono_engine !! SNES))))%nat
    else (length (collect (fuzzy_threshold chrono_engine) (py "chrono trigger")
                    (default [] (_file_index chrono_engine !! SNES)))
          - Z.to_nat (- DEFAULT_MAX_RESULTS))%nat.
Proof.
  apply (search_result_count _ _ _ _ _ _ _ _ chrono_search). by vm_compute.
Defined.


Lemma search_translation_first_witness : (0 < 1)%nat.
Proof.
  apply (search_translation_first _ _ _ _ _ _ _ _ 0%nat 1%nat
           chrono_french chrono_usa chrono_search);
    [reflexivity|reflexivity|reflexivity|discriminate|by vm_compute].
Defined.






Lemma load_cache_well_formed_witness :
  _load_cache fresh_engine cached_world NES
  = Ok (true, set_index NES mario_index fresh_engine).
Proof.
  apply (load_cache_well_formed fresh_engine cached_world NES mario_cache mario_index);
    try by vm_compute.
  apply (bool_decide_unpack (NoDup mario_index.*1)). vm_compute. exact I.
Defined.

Lemma save_then_load_empty_witness :
  _load_cache fresh_engine (_save_cache empty_index_engine empty_world NES) NES
  = Ok (true, set_index NES [(OFFICIAL, [])] fresh_engine).
Proof.
  apply (save_then_load_empty empty_index_engine fresh_engine empty_world NES
           [(OFFICIAL, [])]); try by vm_compute.
  apply (bool_decide_unpack (NoDup [(OFFICIAL, @nil RomMatch)].*1)).
  vm_compute. exact I.
Defined.

Lemma prefilter_every_word_witness :
  _contains_all_words (py "chrono trigger") (py "Chrono Trigger (USA).sfc") = true.
Proof.
  apply (prefilter_every_word (py "chrono trigger") (py "Chrono Trigger (USA).sfc")).
  - by vm_compute.
  - apply Forall_forall. intros word Hword. apply contains_spec.
    revert word Hword. apply Forall_forall.
    apply (bool_decide_unpack _). vm_compute. exact I.
Defined.

Lemma prefilter_no_word_witness :
  _contains_all_words (py "xyzabc123") (py "Chrono Trigger (USA).sfc") = false ∧
  ∀ r, r ∈ [] → filename r ≠ py "Chrono Trigger (USA).sfc".
Proof.
  assert (∀ words text,
    Forall (λ word, contains word text = false) words →
    Forall (λ word, ¬ occurs_in word text) words) as Hnone.
  { intros words text Hall. eapply Forall_impl; [exact Hall|].
    intros word Hw Hocc. apply contains_spec in Hocc. congruence. }
  apply (prefilter_no_word chrono_engine chrono_engine empty_world empty_world
           (py "xyzabc123") SNES DEFAULT_MAX_RESULTS [] (py "Chrono Trigger (USA).sfc")).
  - vm_compute. lia.
  - apply Hnone. apply (bool_decide_unpack _). vm_compute. exact I.
  - apply Hnone. apply (bool_decide_unpack _). vm_compute. exact I.
  - vm_compute. reflexivity.
Defined.


Lemma clear_cache_then_search_witness :
  _file_index (set_index NES [] fresh_engine) !! NES
  = Some (_build_index array_world NES).
Proof.
  apply (clear_cache_then_search unlinking_nes mario_engine fresh_engine
           (set_index NES [] fresh_engine) array_world empty_world
           (_save_cache (set_index NES [] fresh_engine) empty_world NES)
           (py "mario") NES DEFAULT_MAX_RESULTS []).
  - discriminate.
  - by vm_compute.
  - vm_compute. reflexivity.
  - vm_compute. reflexivity.
Defined.

Lemma clear_cache_all_witness :
  ∃ self' w',
    clear_cache unlinking_nes mario_engine array_world None = Cleared self' w' ∧
    _file_index self' = ∅ ∧ cache_files w' = ∅ ∧
    official w' = official array_world ∧
    translations w' = translations array_world ∧
    fuzzy_threshold self' = fuzzy_threshold mario_engine.
Proof.
  apply (clear_cache_all unlinking_nes mario_engine array_world None).
  - by left.
  - apply NoDup_singleton.
  - intros s. simpl. rewrite list_elem_of_singleton. split.
    + intros ->. by eexists.
    + intros [c Hc]. by apply lookup_singleton_Some in Hc as [-> _].
  - reflexivity.
Defined.

Lemma get_stats_after_search_witness :
  dict_get (py "systems_indexed")
    (get_stats (py "/roms/.rom_cache") 8 (set_index NES [] fresh_engine))
  = Some (JInt (Z.of_nat (base.size (_file_index fresh_engine)) + 1)) ∧
  dict_get (py "total_files")
    (get_stats (py "/roms/.rom_cache") 8 (set_index NES [] fresh_engine))
  = Some (JInt (Z.of_nat (total_files fresh_engine)
                + Z.of_nat (length (indexed
                    (default [] (_file_index (set_index NES [] fresh_engine) !! NES)))))).
Proof.
  apply (get_stats_after_search fresh_engine (set_index NES [] fresh_engine)
           empty_world (_save_cache (set_index NES [] fresh_engine) empty_world NES)
           (py "mario") NES DEFAULT_MAX_RESULTS []).
  - vm_compute. reflexivity.
  - by vm_compute.
  - by vm_compute.
Defined.
Lemma search_uses_valid_cache_witness :
  search fresh_engine cached_world (py "mario") NES DEFAULT_MAX_RESULTS
  = Ok (slice_to DEFAULT_MAX_RESULTS
          (sort_reverse (collect (fuzzy_threshold fresh_engine) (py "mario")
                           mario_index)),
        set_index NES mario_index fresh_engine, cached_world).
Proof.
  apply (search_uses_valid_cache fresh_engine cached_world (py "mario") NES
           DEFAULT_MAX_RESULTS mario_cache mario_index); try by vm_compute.
  apply (bool_decide_unpack (NoDup mario_index.*1)). vm_compute. exact I.
Defined.
End FurtherExamples.
